(** * FREUD: activation recorder, L1 sparse autoencoder and precomputed
    activation store.

    Shallow embedding of
      - src/hooked_model.py          (BaseActivationModule, WhisperActivationCache)
      - src/models/l1autoencoder.py  (mse_loss, L1AutoEncoder)
      - src/dataset/activations.py   (init_sae_from_checkpoint,
                                      MemoryMappedActivationsDataset)

    Stateful Python code is written in state-passing style: a method
    returns its outcome together with the object it leaves behind, so that
    what an exception leaves half-done stays visible.  Tensor entries of the
    autoencoder are real numbers (the arithmetic of the source, without
    rounding): statements over them say which quantity the code computes,
    not which bits.  What depends on rounding (an exactly unit norm, a
    normalization that changes nothing the second time) is checked in
    [Binary32], the same normalization in IEEE 754 single precision.  The
    recorder and the store only move entries around, and are generic in
    the entry type. *)

From Stdlib Require Import Reals Lra Lia ZArith List Ascii String.
From Stdlib Require Floats.SpecFloat.
From stdpp Require Import gmap strings list fin_maps.

(* ===================================================================== *)
(** * Python values: exceptions, indexing, slicing                        *)
(* ===================================================================== *)

Module Py.

(** The exception classes the modelled code can raise. *)
Inductive exn : Type :=
| AssertionError
| KeyError (key : string)
| IndexError
| ValueError
| TypeError
| RuntimeError.

Inductive result (A : Type) : Type :=
| Ok (a : A)
| Raise (e : exn).
Arguments Ok {A} a.
Arguments Raise {A} e.

Definition bind {A B : Type} (m : result A) (k : A → result B) : result B :=
  match m with
  | Ok a => k a
  | Raise e => Raise e
  end.

(** [d[key]] on a dictionary entry that may be absent: a KeyError carrying
    the key. *)
Definition dict_getitem {A : Type} (key : string) (entry : option A) : result A :=
  match entry with
  | Some a => Ok a
  | None => Raise (KeyError key)
  end.

(** [l[i]] on a list (or the first axis of an array): negative indices
    count from the end, anything else out of range raises IndexError. *)
Definition getitem {A : Type} (l : list A) (i : Z) : result A :=
  let n := Z.of_nat (length l) in
  let j := if (i <? 0)%Z then (i + n)%Z else i in
  if ((0 <=? j) && (j <? n))%Z
  then match l !! Z.to_nat j with
       | Some x => Ok x
       | None => Raise IndexError
       end
  else Raise IndexError.

(** [l[:n]]: a negative stop counts from the end, and the stop is clipped
    to the length. *)
Definition slice_to {A : Type} (l : list A) (n : Z) : list A :=
  if (n <? 0)%Z
  then take (Z.to_nat (Z.max 0 (Z.of_nat (length l) + n))) l
  else take (Z.to_nat n) l.

(** [sub in s] on strings. *)
Fixpoint contains (sub s : string) : bool :=
  String.prefix sub s ||
  match s with
  | EmptyString => false
  | String _ s' => contains sub s'
  end.

End Py.

#[global] Instance result_bind : MBind Py.result :=
  fun A B k m => Py.bind m k.

(* ===================================================================== *)
(** * src/hooked_model.py                                                 *)
(* ===================================================================== *)

Module HookedModel.
Import Py.

Section Recorder.

(** Entry type of the captured tensors, and type of the model's output. *)
Variable A : Type.
Variable Out : Type.

(** A rank-3 tensor [bsz, seq_len, width]: the shape is part of the
    value, as in torch, and [cells] holds, per example, per sequence
    position, the feature vector. *)
Record tensor : Type := mkTensor {
  bsz : nat;
  seq_len : nat;
  width : nat;
  cells : list (list (list A))
}.

Definition well_shaped (t : tensor) : Prop :=
  length (cells t) = bsz t ∧
  Forall (fun ex => length ex = seq_len t ∧
                    Forall (fun v => length v = width t) ex) (cells t).

(** [t[:, :, :w]] *)
Definition narrow (w : nat) (t : tensor) : tensor :=
  mkTensor (bsz t) (seq_len t) (Nat.min (width t) w)
           (map (map (take w)) (cells t)).

(** [torch.cat((a, b), dim=1)]: the sizes must agree on every other
    axis, else torch raises a RuntimeError. *)
Definition cat_seq (a b : tensor) : result tensor :=
  if (bsz a =? bsz b) && (width a =? width b)
  then Ok (mkTensor (bsz a) (seq_len a + seq_len b) (width a)
                    (zip_with app (cells a) (cells b)))
  else Raise RuntimeError.

(** The feature vectors a tensor holds, over all examples and positions. *)
Definition frames (t : tensor) : list (list A) := concat (cells t).

(** A caller-supplied hook [hook(module, input, output)], restricted to
    observers: a callback that sees the module's name and output and then
    returns [None] or raises.  A Python callable may also hold a reference
    to the recorder and write to it, or return a value that replaces the
    module's output; such hooks are outside this model, and nothing proved
    about a recorder with a [hook_fn] covers them. *)
Definition custom_hook : Type := string → tensor → option exn.

(** The closures registered on the model: the closure built by
    [_get_caching_hook(name)], or the caller's [hook_fn]. *)
Inductive hook : Type :=
| CachingHook (name : string)
| CustomHook (f : custom_hook).

(** Which [_get_caching_hook] the object's class provides. *)
Inductive caching_policy : Type :=
| BaseCaching       (* BaseActivationModule._get_caching_hook *)
| WhisperCaching.   (* WhisperActivationCache._get_caching_hook *)

(** The part of a [torch.nn.Module] the recorder touches: the names
    [named_modules()] yields, in order, and the forward hooks registered
    on the submodules, each under the id of its removable handle. *)
Record torch_module : Type := mkModule {
  named_modules : list string;
  forward_hooks : list (nat * (string * hook));
  next_handle : nat
}.

Record recorder : Type := mkRecorder {
  model : torch_module;
  step : nat;
  activations : gmap string tensor;
  hooks : list nat;
  activations_to_cache : list string;
  hook_fn : option custom_hook;
  policy : caching_policy
}.

Definition set_model (m : torch_module) (r : recorder) : recorder :=
  mkRecorder m (step r) (activations r) (hooks r)
             (activations_to_cache r) (hook_fn r) (policy r).
Definition set_step (n : nat) (r : recorder) : recorder :=
  mkRecorder (model r) n (activations r) (hooks r)
             (activations_to_cache r) (hook_fn r) (policy r).
Definition set_activations (a : gmap string tensor) (r : recorder) : recorder :=
  mkRecorder (model r) (step r) a (hooks r)
             (activations_to_cache r) (hook_fn r) (policy r).
Definition set_hooks (h : list nat) (r : recorder) : recorder :=
  mkRecorder (model r) (step r) (activations r) h
             (activations_to_cache r) (hook_fn r) (policy r).

(** ** __init__ *)

(** [regex.match(pattern, name)] as a truth value (it may raise on a
    malformed pattern) and [natsorted] are library functions. *)
Variable regex_match : string → string → result bool.
Variable natsorted : list string → list string.

(** [any(regex.match(activation, name) for activation in activation_regex)] *)
Fixpoint any_match (activation_regex : list string) (name : string) : result bool :=
  match activation_regex with
  | [] => Ok false
  | p :: ps =>
      b ← regex_match p name ;
      if b : bool then Ok true else any_match ps name
  end.

(** The loop over [model.named_modules()] filling [activations_to_cache]. *)
Fixpoint matched_names (names : list string) (activation_regex : list string)
  : result (list string) :=
  match names with
  | [] => Ok []
  | name :: rest =>
      b ← any_match activation_regex name ;
      tl ← matched_names rest activation_regex ;
      Ok (if b : bool then name :: tl else tl)
  end.

(** [BaseActivationModule.__init__]; [WhisperActivationCache.__init__]
    only forwards to it and stores the device. *)
Definition init (cls : caching_policy) (model : option torch_module)
           (hook_fn : option custom_hook) (activation_regex : list string)
  : result recorder :=
  match model with
  | None => Raise AssertionError
  | Some m =>
      names ← matched_names (named_modules m) activation_regex ;
      Ok (mkRecorder m 0 ∅ [] (natsorted names) hook_fn cls)
  end.

(** ** register_hooks / remove_hooks / reset_state *)

Definition register_forward_hook (name : string) (h : hook) (m : torch_module)
  : nat * torch_module :=
  (next_handle m,
   mkModule (named_modules m)
            (forward_hooks m ++ [(next_handle m, (name, h))])
            (S (next_handle m))).

Fixpoint register_loop (names : list string) (r : recorder) : recorder :=
  match names with
  | [] => r
  | name :: rest =>
      if bool_decide (name ∈ activations_to_cache r)
      then
        let h := match hook_fn r with
                 | Some f => CustomHook f
                 | None => CachingHook name
                 end in
        let '(handle, m) := register_forward_hook name h (model r) in
        register_loop rest (set_hooks (hooks r ++ [handle]) (set_model m r))
      else register_loop rest r
  end.

Definition register_hooks (r : recorder) : recorder :=
  register_loop (named_modules (model r)) r.

(** [handle.remove()]: drops the hook with that id, if still there. *)
Definition remove_handle (handle : nat) (m : torch_module) : torch_module :=
  mkModule (named_modules m)
           (filter (fun e => fst e ≠ handle) (forward_hooks m))
           (next_handle m).

Definition remove_hooks (r : recorder) : recorder :=
  set_hooks [] (set_model (foldl (fun m h => remove_handle h m) (model r) (hooks r)) r).

Definition reset_state (r : recorder) : recorder :=
  set_activations ∅ r.

(** ** The caching hooks *)

(** [del self.activations[name]] *)
Definition del_activation (name : string) (r : recorder) : result unit * recorder :=
  match activations r !! name with
  | Some _ => (Ok tt, set_activations (delete name (activations r)) r)
  | None => (Raise (KeyError name), r)
  end.

(** [BaseActivationModule._get_caching_hook(name)] *)
Definition base_caching_hook (name : string) (output : tensor) (r : recorder)
  : result unit * recorder :=
  (Ok tt, set_activations (<[name := output]> (activations r)) r).

(** [WhisperActivationCache._get_caching_hook(name)] *)
Definition whisper_caching_hook (name : string) (output : tensor) (r : recorder)
  : result unit * recorder :=
  if contains "decoder" name && (1 <? seq_len output)
  then del_activation name r
  else
    match activations r !! name with
    | Some acc =>
        match cat_seq acc output with
        | Ok t => (Ok tt, set_activations (<[name := t]> (activations r)) r)
        | Raise e => (Raise e, r)
        end
    | None =>
        (Ok tt, set_activations (<[name := narrow 50 output]> (activations r)) r)
    end.

Definition run_hook (h : hook) (module_name : string) (output : tensor)
           (r : recorder) : result unit * recorder :=
  match h with
  | CachingHook name =>
      match policy r with
      | BaseCaching => base_caching_hook name output r
      | WhisperCaching => whisper_caching_hook name output r
      end
  | CustomHook f =>
      match f module_name output with
      | None => (Ok tt, r)
      | Some e => (Raise e, r)
      end
  end.

(** ** The forward pass *)

(** One invocation of a submodule during the model's evaluation: its
    name and the output it produced. *)
Definition event : Type := string * tensor.

(** The hooks of the invoked submodule are called in registration
    order; the first that raises ends the pass. *)
Fixpoint fire (registered : list (nat * (string * hook))) (ev : event)
         (r : recorder) : result unit * recorder :=
  match registered with
  | [] => (Ok tt, r)
  | (_, (m, h)) :: rest =>
      if String.eqb m ev.1
      then match run_hook h ev.1 ev.2 r with
           | (Ok _, r') => fire rest ev r'
           | (Raise e, r') => (Raise e, r')
           end
      else fire rest ev r
  end.

(** [custom_forward(self.model, x)]: the evaluation of the model on [x]
    is given by the submodule invocations it makes, in order, and by
    the value it returns. *)
Fixpoint run_model (trace : list event) (r : recorder) : result unit * recorder :=
  match trace with
  | [] => (Ok tt, r)
  | ev :: rest =>
      match fire (forward_hooks (model r)) ev r with
      | (Ok _, r') => run_model rest r'
      | (Raise e, r') => (Raise e, r')
      end
  end.

Definition custom_forward (x : list event * Out) (r : recorder)
  : result Out * recorder :=
  match run_model x.1 r with
  | (Ok _, r') => (Ok x.2, r')
  | (Raise e, r') => (Raise e, r')
  end.

(** [BaseActivationModule.forward]; [model.zero_grad()] touches nothing
    that is modelled here. *)
Definition forward (x : list event * Out) (r : recorder) : result Out * recorder :=
  let r1 := set_step (step r + 1) r in
  let r2 := register_hooks r1 in
  match custom_forward x r2 with
  | (Ok model_out, r3) => (Ok model_out, remove_hooks r3)
  | (Raise e, r3) => (Raise e, r3)
  end.

End Recorder.

Arguments mkTensor {A} _ _ _ _.
Arguments bsz {A} _.
Arguments seq_len {A} _.
Arguments width {A} _.
Arguments cells {A} _.
Arguments well_shaped {A} _.
Arguments narrow {A} _ _.
Arguments cat_seq {A} _ _.
Arguments frames {A} _.
Arguments CachingHook {A} _.
Arguments CustomHook {A} _.
Arguments mkModule {A} _ _ _.
Arguments named_modules {A} _.
Arguments forward_hooks {A} _.
Arguments next_handle {A} _.
Arguments mkRecorder {A} _ _ _ _ _ _ _.
Arguments model {A} _.
Arguments step {A} _.
Arguments activations {A} _.
Arguments hooks {A} _.
Arguments activations_to_cache {A} _.
Arguments hook_fn {A} _.
Arguments policy {A} _.
Arguments set_activations {A} _ _.
Arguments init {A} _ _ _ _ _ _.
Arguments register_hooks {A} _.
Arguments remove_hooks {A} _.
Arguments reset_state {A} _.
Arguments del_activation {A} _ _.
Arguments base_caching_hook {A} _ _ _.
Arguments whisper_caching_hook {A} _ _ _.
Arguments run_hook {A} _ _ _ _.
Arguments fire {A} _ _ _.
Arguments run_model {A} _ _.
Arguments custom_forward {A Out} _ _.
Arguments forward {A Out} _ _.

End HookedModel.

(* ===================================================================== *)
(** * src/models/l1autoencoder.py                                         *)
(* ===================================================================== *)

Module L1.
Import Py HookedModel.
Local Open Scope R_scope.

Abbreviation rtensor := (HookedModel.tensor R).

(** ** Tensor arithmetic used by the module *)

Definition sum (l : list R) : R := fold_right Rplus 0 l.

Definition dot (u v : list R) : R := sum (zip_with Rmult u v).

(** [W[:, j]] of a matrix stored by rows. *)
Definition column (j : nat) (W : list (list R)) : list R :=
  map (fun row => nth j row 0) W.

(** The 2-norm and the 1-norm of a vector. *)
Definition norm2 (v : list R) : R := sqrt (sum (map (fun x => x * x) v)).
Definition norm1 (v : list R) : R := sum (map Rabs v).

(** [torch.nn.functional.normalize]'s default [eps]. *)
Definition eps : R := 1e-12.

(** [nn.functional.normalize(W, dim=0)] on a matrix with [n] columns:
    [W / W.norm(2, dim=0, keepdim=True).clamp_min(eps)], every column
    divided by its own clamped norm. *)
Definition normalize_dim0 (n : nat) (W : list (list R)) : list (list R) :=
  let denom := map (fun j => Rmax (norm2 (column j W)) eps) (seq 0 n) in
  map (fun row => zip_with Rdiv row denom) W.

(** [v @ W] for a vector [v] and a matrix with [n] columns. *)
Definition vec_matmul (n : nat) (v : list R) (W : list (list R)) : list R :=
  map (fun j => dot v (column j W)) (seq 0 n).

(** [nn.ReLU] *)
Definition relu (x : R) : R := Rmax x 0.

(** Row-major order of all entries. *)
Definition flatten (t : rtensor) : list R := concat (concat (cells t)).

Definition same_shape (a b : rtensor) : bool :=
  (bsz a =? bsz b)%nat && (seq_len a =? seq_len b)%nat && (width a =? width b)%nat.

(** [t.mean()] of the listed entries; the mean of no entry is nan,
    which [None] stands for. *)
Definition mean (l : list R) : option R :=
  match l with
  | [] => None
  | _ => Some (sum l / INR (length l))
  end.

(** ** mse_loss *)

Definition Req_bool (a b : R) : bool := if Req_dec_T a b then true else false.

(** [values[~mask]]: the entries where the mask is false, in order. *)
Definition select_unmasked (mask : list bool) (values : list R) : list R :=
  map snd (filter (fun p => negb p.1) (zip mask values)).

(** What [mse_loss] returns: a 0-dim tensor, a 1-dim tensor, or Python's
    [None] when [reduction] is neither "mean" nor "None". *)
Inductive loss_value : Type :=
| Scalar (s : option R)
| Elementwise (v : list R)
| PyNone.

Definition mse_loss (input target : rtensor) (ignored_index : R) (reduction : string)
  : result loss_value :=
  let mask := map (fun t => Req_bool t ignored_index) (flatten target) in
  if same_shape input target then
    let out := zip_with (fun a b => (a - b) * (a - b))
                        (select_unmasked mask (flatten input))
                        (select_unmasked mask (flatten target)) in
    if String.eqb reduction "mean" then Ok (Scalar (mean out))
    else if String.eqb reduction "None" then Ok (Elementwise out)
    else Ok PyNone
  else Raise IndexError.

(** [alpha * value] *)
Definition scale (alpha : R) (v : loss_value) : result loss_value :=
  match v with
  | Scalar s => Ok (Scalar (Rmult alpha <$> s))
  | Elementwise l => Ok (Elementwise (map (Rmult alpha) l))
  | PyNone => Raise TypeError
  end.

(** ** L1AutoEncoder *)

(** The state of the module: [decoder.weight] has shape
    [activation_size, n_dict_components] and is stored by rows;
    [encoder_bias] has [n_dict_components] entries. *)
Record L1AutoEncoder : Type := mkL1 {
  activation_size : nat;
  n_dict_components : nat;
  recon_alpha : R;
  decoder_weight : list (list R);
  encoder_bias : list R
}.

Definition well_formed (m : L1AutoEncoder) : Prop :=
  length (decoder_weight m) = activation_size m ∧
  Forall (fun row => length row = n_dict_components m) (decoder_weight m) ∧
  length (encoder_bias m) = n_dict_components m.

Definition set_decoder_weight (W : list (list R)) (m : L1AutoEncoder) : L1AutoEncoder :=
  mkL1 (activation_size m) (n_dict_components m) (recon_alpha m) W (encoder_bias m).

Record L1EncoderOutput : Type := mkEncoded { latent : rtensor }.

Record L1ForwardOutput : Type := mkForward {
  sae_out : rtensor;
  encoded : L1EncoderOutput;
  l1_loss : option R;
  reconstruction_loss : loss_value
}.

(** [self.encoder(x @ self.decoder.weight + self.encoder_bias)] on one
    feature vector. *)
Definition encode_vec (m : L1AutoEncoder) (v : list R) : list R :=
  map relu (zip_with Rplus (vec_matmul (n_dict_components m) v (decoder_weight m))
                           (encoder_bias m)).

(** [L1AutoEncoder.encode]: the weights are renormalized in place first;
    the product then raises when the width of [x] is not
    [activation_size]. *)
Definition encode (x : rtensor) (m : L1AutoEncoder)
  : result L1EncoderOutput * L1AutoEncoder :=
  let m' := set_decoder_weight
              (normalize_dim0 (n_dict_components m) (decoder_weight m)) m in
  if (width x =? activation_size m')%nat
  then (Ok (mkEncoded (mkTensor (bsz x) (seq_len x) (n_dict_components m')
                                (map (map (encode_vec m')) (cells x)))), m')
  else (Raise RuntimeError, m').

(** [self.decoder(c)]: [c @ W.T], no bias. *)
Definition decoder (c : rtensor) (m : L1AutoEncoder) : result rtensor :=
  if (width c =? n_dict_components m)%nat
  then Ok (mkTensor (bsz c) (seq_len c) (activation_size m)
                    (map (map (fun v => map (dot v) (decoder_weight m))) (cells c)))
  else Raise RuntimeError.

Definition decode (c : rtensor) (m : L1AutoEncoder) : result rtensor := decoder c m.

(** [torch.norm(c, 1, dim=2).mean()] *)
Definition norm1_dim2_mean (c : rtensor) : option R :=
  mean (concat (map (map norm1) (cells c))).

(** [((x_hat - x) ** 2).mean()] *)
Definition plain_mse (x_hat x : rtensor) : result (option R) :=
  if same_shape x_hat x
  then Ok (mean (zip_with (fun a b => (a - b) * (a - b)) (flatten x_hat) (flatten x)))
  else Raise RuntimeError.

(** [L1AutoEncoder.forward] *)
Definition forward (x : rtensor) (return_mse : bool) (m : L1AutoEncoder)
  : result (L1ForwardOutput * option (option R)) * L1AutoEncoder :=
  match encode x m with
  | (Raise e, m') => (Raise e, m')
  | (Ok enc, m') =>
      let c := latent enc in
      (x_hat ← decoder c m' ;
       let loss_l1 := norm1_dim2_mean c in
       unweighted ← mse_loss x_hat x (-1) "mean" ;
       loss_recon ← scale (recon_alpha m') unweighted ;
       let forward_output := mkForward x_hat (mkEncoded c) loss_l1 loss_recon in
       if return_mse
       then (mse ← plain_mse x_hat x ; Ok (forward_output, Some mse))
       else Ok (forward_output, None),
       m')
  end.

(** ** The losses as the specification words them *)

(** Sum over all examples, positions and features of [f] applied to the
    entries of two tensors at the same index. *)
Definition sum3 (f : R → R → R) (a b : list (list (list R))) : R :=
  sum (zip_with (fun ea eb =>
         sum (zip_with (fun va vb => sum (zip_with f va vb)) ea eb)) a b).

Definition count3 (p : R → bool) (b : list (list (list R))) : nat :=
  sum_list (map (fun eb => sum_list (map (fun vb => length (filter (fun x => p x = true) vb)) eb)) b).

(** Mean, over examples and positions, of the L1 norm of the latent code
    taken across the feature axis. *)
Definition spec_sparsity_loss (c : rtensor) : option R :=
  if (bsz c * seq_len c =? 0)%nat then None
  else Some (sum (map (fun ex => sum (map norm1 ex)) (cells c))
             / INR (bsz c * seq_len c)).

(** Mean squared error between reconstruction and input over the
    positions where the input is not the ignore sentinel. *)
Definition spec_masked_mse (sentinel : R) (x_hat x : rtensor) : option R :=
  let kept := count3 (fun t => negb (Req_bool t sentinel)) (cells x) in
  if (kept =? 0)%nat then None
  else Some (sum3 (fun a b => if Req_bool b sentinel then 0 else (a - b) * (a - b))
                  (cells x_hat) (cells x)
             / INR kept).

(** Two nested lists with the same lengths at every level. *)
Definition same_dims (a b : list (list (list R))) : Prop :=
  Forall2 (Forall2 (fun u v : list R => length u = length v)) a b.

End L1.

(* ===================================================================== *)
(** * The normalization in single precision                               *)
(* ===================================================================== *)

(** [nn.functional.normalize] as the source runs it, on float32 weights:
    the definitions of [L1] above with every operation rounded to the
    nearest binary32 number, ties to even (no fused multiply-add). *)
Module Binary32.

Definition prec : Z := 24.
Definition emax : Z := 128.

Definition float32 : Type := SpecFloat.spec_float.

(** The float32 nearest to an integer. *)
Definition of_Z (z : Z) : float32 := SpecFloat.binary_normalize prec emax z 0 false.

Definition add : float32 → float32 → float32 := SpecFloat.SFadd prec emax.
Definition mul : float32 → float32 → float32 := SpecFloat.SFmul prec emax.
Definition div : float32 → float32 → float32 := SpecFloat.SFdiv prec emax.
Definition sqrt : float32 → float32 := SpecFloat.SFsqrt prec emax.

(** [clamp_min] *)
Definition max (a b : float32) : float32 := if SpecFloat.SFltb a b then b else a.

Definition sum (l : list float32) : float32 := fold_right add (of_Z 0) l.

Definition column (j : nat) (W : list (list float32)) : list float32 :=
  map (fun row => nth j row (of_Z 0)) W.

Definition norm2 (v : list float32) : float32 := sqrt (sum (map (fun x => mul x x) v)).

(** The float32 nearest to [1e-12]: 9223372 * 2^-63. *)
Definition eps : float32 := SpecFloat.S754_finite false 9223372 (-63).

Definition normalize_dim0 (n : nat) (W : list (list float32)) : list (list float32) :=
  let denom := map (fun j => max (norm2 (column j W)) eps) (seq 0 n) in
  map (fun row => zip_with div row denom) W.

End Binary32.

(* ===================================================================== *)
(** * src/dataset/activations.py                                          *)
(* ===================================================================== *)

Module Activations.
Import Py.

(** ** init_sae_from_checkpoint *)

Section Checkpoint.

(** The configuration classes, [TopKAutoEncoder], [get_n_dict_components]
    and torch's [load_state_dict] live outside the modelled files.  A
    configuration dictionary, a state dictionary and the two configuration
    types are left abstract; [from_dict] may raise. *)
Variables cfg_dict state_dict L1AutoEncoderConfig TopKAutoEncoderConfig : Type.
Variable l1_from_dict : cfg_dict → result L1AutoEncoderConfig.
Variable topk_from_dict : cfg_dict → result TopKAutoEncoderConfig.

(** What a constructor call fixes: the class and its two arguments. *)
Inductive architecture : Type :=
| L1AutoEncoder (activation_size : Z) (cfg : L1AutoEncoderConfig)
| TopKAutoEncoder (activation_size : Z) (cfg : TopKAutoEncoderConfig).

(** The constructors may raise: [L1AutoEncoder.__init__] calls
    [get_n_dict_components], [nn.Linear] and [torch.zeros] on its
    arguments.  [constructor_raises a] is the exception the call described
    by [a] raises, [None] when it returns. *)
Variable constructor_raises : architecture → option exn.

(** [state_fits] says whether the strict [load_state_dict] accepts a
    state dictionary for a module of the given architecture (it raises a
    RuntimeError otherwise). *)
Variable state_fits : architecture → state_dict → bool.

(** A module: its architecture, the state dictionary loaded into it
    ([None] while it still has the weights of its initialisation), and
    the training flag. *)
Record sae : Type := mkSae {
  arch : architecture;
  loaded : option state_dict;
  training : bool
}.

(** [checkpoint['hparams']]: a dictionary, in which any of the three keys
    the function reads may be absent. *)
Record hparams : Type := mkHparams {
  activation_size : option Z;
  autoencoder_variant : option string;
  autoencoder_config : option cfg_dict
}.

(** The dictionary [torch.load(checkpoint)] returns; either key may be
    absent. *)
Record checkpoint : Type := mkCheckpoint {
  ckpt_hparams : option hparams;
  ckpt_model : option state_dict
}.

Definition construct (a : architecture) : result sae :=
  match constructor_raises a with
  | Some e => Raise e
  | None => Ok (mkSae a None true)
  end.

Definition load_state_dict (m : sae) (st : state_dict) : result sae :=
  if state_fits (arch m) st
  then Ok (mkSae (arch m) (Some st) (training m))
  else Raise RuntimeError.

Definition eval (m : sae) : sae := mkSae (arch m) (loaded m) false.

(** [init_sae_from_checkpoint], from the loaded dictionary on.  The
    source indexes [checkpoint['hparams']] anew at every use; the lookups
    are written in the order in which the source evaluates them. *)
Definition init_sae_from_checkpoint (checkpoint : checkpoint) : result sae :=
  hp ← dict_getitem "hparams" (ckpt_hparams checkpoint) ;
  activation_size ← dict_getitem "activation_size" (activation_size hp) ;
  variant ← dict_getitem "autoencoder_variant" (autoencoder_variant hp) ;
  model ←
    (if String.eqb variant "l1"
     then d ← dict_getitem "autoencoder_config" (autoencoder_config hp) ;
          cfg ← l1_from_dict d ;
          construct (L1AutoEncoder activation_size cfg)
     else d ← dict_getitem "autoencoder_config" (autoencoder_config hp) ;
          cfg ← topk_from_dict d ;
          construct (TopKAutoEncoder activation_size cfg)) ;
  st ← dict_getitem "model" (ckpt_model checkpoint) ;
  model ← load_state_dict model st ;
  Ok (eval model).

End Checkpoint.

Arguments L1AutoEncoder {_ _} _ _.
Arguments TopKAutoEncoder {_ _} _ _.
Arguments mkSae {_ _ _} _ _ _.
Arguments arch {_ _ _} _.
Arguments loaded {_ _ _} _.
Arguments training {_ _ _} _.
Arguments mkHparams {_} _ _ _.
Arguments activation_size {_} _.
Arguments autoencoder_variant {_} _.
Arguments autoencoder_config {_} _.
Arguments mkCheckpoint {_ _} _ _.
Arguments ckpt_hparams {_ _} _.
Arguments ckpt_model {_ _} _.
Arguments init_sae_from_checkpoint {_ _ _ _} _ _ _ _ _.

(** ** MemoryMappedActivationsDataset *)

Section Store.

(** Entry type of the blob. *)
Variable B : Type.

(** An array as numpy and torch have it: a shape and the entries in
    row-major order. *)
Record ndarray : Type := mkArray {
  shape : list Z;
  data : list B
}.

(** The sidecar file [<layer>_metadata.json]. *)
Record metadata : Type := mkMetadata {
  filenames : list string;
  tensor_shapes : list (list Z)
}.

Record MemoryMappedActivationsDataset : Type := mkDataset {
  ds_metadata : metadata;
  mmap : list (list B);            (* the blob, one flat row per entry *)
  activation_shape : list Z
}.

Definition product (dims : list Z) : Z := fold_right Z.mul 1%Z dims.

(** [row.reshape(shape)] of numpy: a negative dimension (usually written
    -1, but any negative number is taken the same way) stands for the one
    unknown dimension, which is inferred from the size and the product of
    the others; two negative dimensions, or a size that does not fit,
    raise a ValueError. *)
Definition reshape (row : list B) (dims : list Z) : result ndarray :=
  let size := Z.of_nat (length row) in
  match filter (fun d => (d < 0)%Z) dims with
  | [] =>
      if (product dims =? size)%Z then Ok (mkArray dims row) else Raise ValueError
  | [_] =>
      let known := product (filter (fun d => (0 <= d)%Z) dims) in
      if negb (known =? 0)%Z && (size mod known =? 0)%Z
      then Ok (mkArray (map (fun d => if (d <? 0)%Z then (size / known)%Z else d) dims) row)
      else Raise ValueError
  | _ => Raise ValueError
  end.

(** [__init__], given the contents of the two files of the layer. *)
Definition init (on_disk : metadata) (blob : list (list B)) (subset_size : option Z)
  : result MemoryMappedActivationsDataset :=
  let '(md, mm) :=
    match subset_size with
    | Some n => (mkMetadata (slice_to (filenames on_disk) n)
                            (slice_to (tensor_shapes on_disk) n),
                 slice_to blob n)
    | None => (on_disk, blob)
    end in
  first_shape ← getitem (tensor_shapes md) 0 ;
  Ok (mkDataset md mm first_shape).

(** [__len__] *)
Definition len (ds : MemoryMappedActivationsDataset) : nat :=
  length (filenames (ds_metadata ds)).

(** [__getitem__] *)
Definition get (ds : MemoryMappedActivationsDataset) (idx : Z)
  : result (ndarray * string) :=
  filename ← getitem (filenames (ds_metadata ds)) idx ;
  tensor_shape ← getitem (tensor_shapes (ds_metadata ds)) idx ;
  tensor_data ← getitem (mmap ds) idx ;
  tensor ← reshape tensor_data tensor_shape ;
  Ok (tensor, filename).

End Store.

(** The invariant of the store: one shape and one row per file, and each
    row holds as many entries as its recorded shape asks for. *)
Definition store_invariant {B : Type} (md : metadata) (blob : list (list B)) : Prop :=
  length (tensor_shapes md) = length (filenames md)
  ∧ Forall2 (fun dims row => Forall (fun d => (0 <= d)%Z) dims
                             ∧ product dims = Z.of_nat (length row))
            (tensor_shapes md) blob.

Arguments mkArray {B} _ _.
Arguments shape {B} _.
Arguments data {B} _.
Arguments mkDataset {B} _ _ _.
Arguments ds_metadata {B} _.
Arguments mmap {B} _.
Arguments activation_shape {B} _.
Arguments reshape {B} _ _.
Arguments init {B} _ _ _.
Arguments len {B} _.
Arguments get {B} _ _.

End Activations.

(* ===================================================================== *)
(** * Concrete library functions for closed examples                      *)
(* ===================================================================== *)

Module Lib.
Import Py.

(** [regex.match(pattern, name)] for a pattern without metacharacters:
    the name starts with the pattern. *)
Definition literal_match (pattern name : string) : result bool :=
  Ok (String.prefix pattern name).

(** The key of natsort's default algorithm on ASCII names: the name cut
    into runs of text and unsigned numbers, text first. *)
Inductive chunk : Type :=
| Text (s : string)
| Num (n : N).

Definition is_digit (c : ascii) : bool :=
  (48 <=? nat_of_ascii c) && (nat_of_ascii c <=? 57).

Definition digit (c : ascii) : N := N.of_nat (nat_of_ascii c - 48).

Fixpoint chunks (s : string) (cur : chunk) : list chunk :=
  match s with
  | EmptyString => [cur]
  | String c s' =>
      if is_digit c
      then match cur with
           | Num n => chunks s' (Num (10 * n + digit c))
           | Text _ => cur :: chunks s' (Num (digit c))
           end
      else match cur with
           | Text t => chunks s' (Text (t +:+ String c EmptyString))
           | Num _ => cur :: chunks s' (Text (String c EmptyString))
           end
  end.

Definition natsort_key (s : string) : list chunk := chunks s (Text "").

Definition chunk_compare (a b : chunk) : comparison :=
  match a, b with
  | Text s, Text t => String.compare s t
  | Num m, Num n => N.compare m n
  | Text _, Num _ => Lt
  | Num _, Text _ => Gt
  end.

Fixpoint key_le (k1 k2 : list chunk) : bool :=
  match k1, k2 with
  | [], _ => true
  | _ :: _, [] => false
  | a :: k1', b :: k2' =>
      match chunk_compare a b with
      | Lt => true
      | Gt => false
      | Eq => key_le k1' k2'
      end
  end.

Fixpoint insert_sorted (x : string) (l : list string) : list string :=
  match l with
  | [] => [x]
  | y :: l' =>
      if key_le (natsort_key x) (natsort_key y)
      then x :: y :: l'
      else y :: insert_sorted x l'
  end.

(** A stable sort by [natsort_key]. *)
Definition natsorted (l : list string) : list string :=
  fold_right insert_sorted [] l.

End Lib.

(* ===================================================================== *)
(** * Properties of the recorder as the specification words them          *)
(* ===================================================================== *)

Module RecorderSpec.
Import Py HookedModel.

(** Every feature vector held in the mapping [acts] was produced by a
    submodule invocation of [trace], whole or cut to its first 50
    channels. *)
Definition only_from {A : Type} (trace : list (event A))
           (acts : gmap string (tensor A)) : Prop :=
  ∀ name t, acts !! name = Some t →
  ∀ v, In v (frames t) →
  ∃ ev w, In ev trace ∧ In w (frames ev.2) ∧ (v = w ∨ v = take 50 w).

(** The handles a recorder holds and the hooks its model carries. *)
Definition same_wiring {A : Type} (r r' : recorder A) : Prop :=
  model r' = model r ∧ hooks r' = hooks r.

(** All ids of the registry were handed out already. *)
Definition ids_below_next {A : Type} (m : torch_module A) : Prop :=
  Forall (fun e => e.1 < next_handle m) (forward_hooks m).

End RecorderSpec.

(* ===================================================================== *)
(** * Concrete recorders, models and stores used in closed statements     *)
(* ===================================================================== *)

Module Sample.
Import Py HookedModel.
Open Scope string_scope.

Definition enc_mlp : string := "encoder.blocks.0.mlp".
Definition dec_mlp : string := "decoder.blocks.0.mlp".

(** A model with one encoder-side and one decoder-side MLP. *)
Definition whisper : torch_module Z := mkModule [""; enc_mlp; dec_mlp] [] 0.

(** The recorder [WhisperActivationCache(model=whisper,
    activation_regex=["encoder", "decoder"])] right after construction. *)
Definition cache : recorder Z :=
  mkRecorder whisper 0 ∅ [] [dec_mlp; enc_mlp] None WhisperCaching.

(** An output of shape [1, 1, 2]. *)
Definition token (z : Z) : tensor Z := mkTensor 1 1 2 [[[z; (z + 1)%Z]]].

(** An output of shape [1, 1, 51]. *)
Definition wide_token (z : Z) : tensor Z := mkTensor 1 1 51 [[replicate 51 z]].

(** An output of shape [1, 5, 2], as the decoder gives for five priming
    tokens. *)
Definition priming : tensor Z :=
  mkTensor 1 5 2 [[[0; 0]; [0; 0]; [0; 0]; [0; 0]; [0; 0]]]%Z.

(** An autoencoder with [activation_size = n_dict_components = 2]; its
    dictionary atoms are (3, 4) and (0, 1). *)
Definition sae : L1.L1AutoEncoder :=
  L1.mkL1 2 2 1%R [[3; 0]; [4; 1]]%R [0; 0]%R.

(** An input of shape [1, 1, 2] whose second entry is the sentinel. *)
Definition input : L1.rtensor := mkTensor 1 1 2 [[[1; -1]]]%R.

(** An autoencoder whose only dictionary atom is the zero vector. *)
Definition zero_sae : L1.L1AutoEncoder :=
  L1.mkL1 1 1 1%R [[0]]%R [0]%R.

Definition unit_input : L1.rtensor := mkTensor 1 1 1 [[[1]]]%R.

(** A store of three files; the first was written from a tensor of shape
    [3, 4]. *)
Definition manifest : Activations.metadata :=
  Activations.mkMetadata ["a.flac"; "b.flac"; "c.flac"]
                         [[3; 4]; [2; 6]; [12]]%Z.

Definition blob : list (list Z) :=
  [[1; 2; 3; 4; 5; 6; 7; 8; 9; 10; 11; 12];
   [21; 22; 23; 24; 25; 26; 27; 28; 29; 30; 31; 32];
   [41; 42; 43; 44; 45; 46; 47; 48; 49; 50; 51; 52]]%Z.

Definition store : Activations.MemoryMappedActivationsDataset Z :=
  Activations.mkDataset manifest blob [3; 4]%Z.

(** Checkpoints whose configuration is a list of named numbers and whose
    state dictionary lists parameter names; both configuration classes
    accept any dictionary, and the state dictionary fits the module it is
    loaded into. *)
Definition cfg : Type := list (string * Z).
Definition state : Type := list string.

Definition from_dict (d : cfg) : result cfg := Ok d.

(** Constructors that raise on an activation size below 1 and return
    otherwise. *)
Definition constructor_raises (a : Activations.architecture cfg cfg) : option exn :=
  match a with
  | Activations.L1AutoEncoder size _ | Activations.TopKAutoEncoder size _ =>
      if (size <? 1)%Z then Some RuntimeError else None
  end.

Definition fits (a : Activations.architecture cfg cfg) (st : state) : bool := true.

Definition l1_checkpoint : Activations.checkpoint cfg state :=
  Activations.mkCheckpoint
    (Some (Activations.mkHparams (Some 4%Z) (Some "l1") (Some [("expansion_factor", 2%Z)])))
    (Some ["decoder.weight"; "encoder_bias"]).

(** The same checkpoint saved without its weights. *)
Definition weightless_checkpoint : Activations.checkpoint cfg state :=
  Activations.mkCheckpoint (Activations.ckpt_hparams l1_checkpoint) None.

End Sample.

(* ===================================================================== *)
(** * src/dataset/activations.py: MemoryMappedActivationDataLoader        *)
(* ===================================================================== *)

Module Loaders.
Import Py Activations.

Section Loader.

(** Entry type of the blob. *)
Variable B : Type.

(** The loader: a [torch.utils.data.DataLoader] over the dataset, built
    with [batch_size], [drop_last=True] and [num_workers]. *)
Record MemoryMappedActivationDataLoader : Type := mkLoader {
  dataset : MemoryMappedActivationsDataset B;
  batch_size : Z;
  num_workers : Z;
  loader_activation_shape : list Z;
  dataset_length : nat
}.

(** [__init__]: the dataset is built first; [DataLoader.__init__] then
    refuses a negative [num_workers] and, in its batch sampler, a
    [batch_size] that is not positive, both with a ValueError. *)
Definition loader_init (on_disk : metadata) (blob : list (list B))
           (batch_size dl_max_workers : Z) (subset_size : option Z)
  : result MemoryMappedActivationDataLoader :=
  ds ← init on_disk blob subset_size ;
  if (dl_max_workers <? 0)%Z then Raise ValueError
  else if (batch_size <=? 0)%Z then Raise ValueError
  else Ok (mkLoader ds batch_size dl_max_workers (activation_shape ds) (len ds)).

(** [__len__]: [len(self._dataset) // self.batch_size]. *)
Definition loader_len (l : MemoryMappedActivationDataLoader) : Z :=
  (Z.of_nat (len (dataset l)) / batch_size l)%Z.

(** [torch.stack(tensors)] along a new first axis: all shapes must be
    equal, else a RuntimeError. *)
Definition stack (ts : list (ndarray B)) : result (ndarray B) :=
  match ts with
  | [] => Raise RuntimeError
  | t :: rest =>
      if forallb (fun u => bool_decide (shape u = shape t)) rest
      then Ok (mkArray (Z.of_nat (length ts) :: shape t) (concat (map data ts)))
      else Raise RuntimeError
  end.

(** [[dataset[i] for i in indices]], stopping at the first exception. *)
Fixpoint fetch (ds : MemoryMappedActivationsDataset B) (indices : list nat)
  : result (list (ndarray B * string)) :=
  match indices with
  | [] => Ok []
  | i :: rest =>
      item ← get ds (Z.of_nat i) ;
      items ← fetch ds rest ;
      Ok (item :: items)
  end.

(** Batch number [k] of the sequential batch sampler, collated by
    [default_collate]: the tensors stacked, the file identifiers listed. *)
Definition batch (l : MemoryMappedActivationDataLoader) (k : nat)
  : result (ndarray B * list string) :=
  items ← fetch (dataset l) (seq (k * Z.to_nat (batch_size l)) (Z.to_nat (batch_size l))) ;
  tensor ← stack (map fst items) ;
  Ok (tensor, map snd items).

(** What an iteration yields: the batches produced before the first
    exception, and that exception if there is one. *)
Fixpoint iterate (l : MemoryMappedActivationDataLoader) (ks : list nat)
  : list (ndarray B * list string) * option exn :=
  match ks with
  | [] => ([], None)
  | k :: rest =>
      match batch l k with
      | Ok b => let '(bs, e) := iterate l rest in (b :: bs, e)
      | Raise e => ([], Some e)
      end
  end.

(** [__iter__] of the DataLoader: with [drop_last=True] the sampler
    yields [len(dataset) // batch_size] full batches of consecutive
    indices. *)
Definition iter (l : MemoryMappedActivationDataLoader)
  : list (ndarray B * list string) * option exn :=
  iterate l (seq 0 (Z.to_nat (Z.of_nat (len (dataset l)) / batch_size l))).

(** The batch of [size] consecutive entries starting at entry
    [k * size], all of shape [dims]: the rows laid end to end under the
    shape [size :: dims], with their file identifiers. *)
Definition full_batch (ds : MemoryMappedActivationsDataset B) (size : nat)
           (dims : list Z) (k : nat) : ndarray B * list string :=
  (mkArray (Z.of_nat size :: dims) (concat (take size (drop (k * size) (mmap ds)))),
   take size (drop (k * size) (filenames (ds_metadata ds)))).

End Loader.

Arguments mkLoader {B} _ _ _ _ _.
Arguments dataset {B} _.
Arguments batch_size {B} _.
Arguments num_workers {B} _.
Arguments loader_activation_shape {B} _.
Arguments dataset_length {B} _.
Arguments loader_init {B} _ _ _ _ _.
Arguments loader_len {B} _.
Arguments stack {B} _.
Arguments fetch {B} _ _.
Arguments batch {B} _ _.
Arguments iterate {B} _ _.
Arguments iter {B} _.
Arguments full_batch {B} _ _ _ _.

End Loaders.

(* ===================================================================== *)
(** * Further properties of the recorder as statements                    *)
(* ===================================================================== *)

Module RecorderMore.
Import Py HookedModel.

(** The hook [register_hooks] builds for a module. *)
Definition hook_for {A : Type} (r : recorder A) (name : string) : hook A :=
  match hook_fn r with
  | Some f => CustomHook f
  | None => CachingHook name
  end.

(** The names [register_hooks] registers a hook on, in order. *)
Definition captured {A : Type} (r : recorder A) : list string :=
  filter (fun name => name ∈ activations_to_cache r) (named_modules (model r)).

(** The outputs a trace holds for one submodule, in invocation order. *)
Definition outputs_of {A : Type} (name : string) (trace : list (event A))
  : list (tensor A) :=
  map snd (filter (fun ev : event A => ev.1 = name) trace).

(** The positions of example [e] over a list of captures, first capture
    first. *)
Definition assembled {A : Type} (captures : list (tensor A)) (e : nat)
  : list (list A) :=
  concat (map (fun o => nth e (cells o) []) captures).

(** The entry the Whisper caching policy builds from the captures of one
    submodule: nothing without a capture; otherwise batch size and width
    of the first capture, the sequence lengths added up, and per example
    the positions of all captures in order. *)
Definition assembled_entry {A : Type} (captures : list (tensor A))
  : option (tensor A) :=
  match captures with
  | [] => None
  | first :: _ =>
      Some (mkTensor (bsz first) (sum_list (map seq_len captures)) (width first)
                     (map (assembled captures) (seq 0 (bsz first))))
  end.

(** Captures the Whisper policy can assemble: well-shaped, no wider than
    the 50 channels kept, of one batch size and one width, and, on a
    decoder-side submodule, of at most one position. *)
Definition assemblable {A : Type} (name : string) (captures : list (tensor A)) : Prop :=
  match captures with
  | [] => True
  | first :: _ =>
      Forall (fun o => bsz o = bsz first ∧ width o = width first
                       ∧ well_shaped o ∧ width o ≤ 50
                       ∧ contains "decoder" name && (1 <? seq_len o) = false)
             captures
  end.

(** Every caching closure on the model sits on the module it names. *)
Definition well_wired {A : Type} (m : torch_module A) : Prop :=
  Forall (fun e => ∀ n, e.2.2 = CachingHook n → n = e.2.1) (forward_hooks m).

(** A registry made of caching closures only, each on the module it
    names, and the modules a registry has hooks on. *)
Definition own_caching {A : Type} (registered : list (nat * (string * hook A))) : Prop :=
  Forall (fun e => e.2.2 = CachingHook e.2.1) registered.

Definition names_of {A : Type} (registered : list (nat * (string * hook A)))
  : list string :=
  map (fun e => e.2.1) registered.

End RecorderMore.

(* ===================================================================== *)
(** * Further concrete values                                             *)
(* ===================================================================== *)

Module Sample2.
Import Py HookedModel.
Open Scope string_scope.

(** A recorder of the base kind on the same model. *)
Definition base_cache : recorder Z :=
  mkRecorder Sample.whisper 0 ∅ [] [Sample.dec_mlp; Sample.enc_mlp] None BaseCaching.


(** A store whose three entries share the shape [3, 4], and a loader
    over it with batches of two. *)
Definition uniform_manifest : Activations.metadata :=
  Activations.mkMetadata ["a.flac"; "b.flac"; "c.flac"]
                         [[3; 4]; [3; 4]; [3; 4]]%Z.

Definition uniform_store : Activations.MemoryMappedActivationsDataset Z :=
  Activations.mkDataset uniform_manifest Sample.blob [3; 4]%Z.

Definition loader : Loaders.MemoryMappedActivationDataLoader Z :=
  Loaders.mkLoader uniform_store 2 0 [3; 4]%Z 3.


Definition plain_input : L1.rtensor := mkTensor 1 1 2 [[[1; 2]]]%R.

End Sample2.
(* ===================================================================== *)
(** * Theorems: the recorder                                              *)
(* ===================================================================== *)

Section RecorderFacts.
Import Py HookedModel RecorderSpec.
Context {A : Type}.
Implicit Types (r : recorder A) (t : tensor A) (ev : event A).

(** ** The hooks touch nothing but the mapping *)

Lemma run_hook_wiring h name t r : same_wiring r (run_hook h name t r).2.
Proof.
  unfold same_wiring, run_hook, base_caching_hook, whisper_caching_hook, del_activation.
  destruct h as [n | f].
  - destruct (policy r); simpl; [done |].
    destruct (contains "decoder" n && (1 <? seq_len t)).
    + destruct (activations r !! n); done.
    + destruct (activations r !! n) as [acc |]; [| done].
      destruct (cat_seq acc t); done.
  - destruct (f name t); done.
Qed.

Lemma fire_wiring registered ev r : same_wiring r (fire registered ev r).2.
Proof.
  revert r. induction registered as [| [id [m h]] rest IH]; intros r; simpl.
  - done.
  - destruct (String.eqb m ev.1); [| apply IH].
    pose proof (run_hook_wiring h ev.1 ev.2 r) as Hw.
    destruct (run_hook h ev.1 ev.2 r) as [[u | e] r1]; simpl in *; [| done].
    destruct (IH r1) as [Hm Hh]. destruct Hw as [Hm' Hh'].
    split; congruence.
Qed.

Lemma run_model_wiring (trace : list (event A)) r :
  same_wiring r (run_model trace r).2.
Proof.
  revert r. induction trace as [| ev rest IH]; intros r; simpl.
  - done.
  - pose proof (fire_wiring (forward_hooks (model r)) ev r) as Hw.
    destruct (fire (forward_hooks (model r)) ev r) as [[u | e] r1]; simpl in *; [| done].
    destruct (IH r1) as [Hm Hh]. destruct Hw as [Hm' Hh'].
    split; congruence.
Qed.

(** ** register_hooks and remove_hooks on the registry *)

Lemma register_loop_spec names r :
  ∃ added,
    hooks (register_loop A names r) = hooks r ++ map fst added ∧
    forward_hooks (model (register_loop A names r)) = forward_hooks (model r) ++ added ∧
    map fst added = seq (next_handle (model r)) (length added) ∧
    next_handle (model (register_loop A names r)) = next_handle (model r) + length added ∧
    activations (register_loop A names r) = activations r.
Proof.
  revert r. induction names as [| name rest IH]; intros r; simpl.
  - exists []. simpl. rewrite !app_nil_r. auto with lia.
  - case_bool_decide; [| apply IH].
    match goal with |- context [register_loop A rest ?r1] => destruct (IH r1) as (added & Hh & Hf & Hs & Hn & Ha) end.
    simpl in *.
    eexists ((next_handle (model r), (name, _)) :: added). simpl.
    rewrite Hh, Hf, Hn, Ha, <- !app_assoc. simpl.
    repeat split; auto with lia.
    by rewrite Hs.
Qed.

Lemma filter_keeps_all {B : Type} (P : B → Prop) `{∀ x, Decision (P x)} (l : list B) :
  Forall P l → filter P l = l.
Proof.
  induction 1 as [| x l Hx _ IH]; [done |].
  rewrite filter_cons_True by done. by rewrite IH.
Qed.

Lemma filter_drops_all {B : Type} (P : B → Prop) `{∀ x, Decision (P x)} (l : list B) :
  Forall (fun x => ¬ P x) l → filter P l = [].
Proof.
  induction 1 as [| x l Hx _ IH]; [done |].
  by rewrite filter_cons_False.
Qed.

Lemma remove_handles_spec (m : torch_module A) (hs : list nat) :
  forward_hooks (foldl (fun m h => remove_handle A h m) m hs)
  = filter (fun e => e.1 ∉ hs) (forward_hooks m)
  ∧ next_handle (foldl (fun m h => remove_handle A h m) m hs) = next_handle m.
Proof.
  revert m. induction hs as [| h hs IH]; intros m; simpl.
  - split; [| done]. symmetry. apply filter_keeps_all, Forall_forall. intros e _. set_solver.
  - destruct (IH (remove_handle A h m)) as [-> ->]. simpl. split; [| done].
    rewrite list_filter_filter. apply list_filter_iff. intros e.
    rewrite not_elem_of_cons. tauto.
Qed.

(** ** Provenance of what the hooks store *)

Lemma in_concat_zip_app (l1 l2 : list (list (list A))) v :
  In v (concat (zip_with app l1 l2)) → In v (concat l1) ∨ In v (concat l2).
Proof.
  revert l2. induction l1 as [| a l1 IH]; intros [| b l2]; simpl; try tauto.
  rewrite !in_app_iff. intros [[H | H] | H]; [tauto | tauto |].
  destruct (IH _ H); tauto.
Qed.

Lemma in_frames_narrow w t v :
  In v (frames (narrow w t)) → ∃ u, In u (frames t) ∧ v = take w u.
Proof.
  unfold frames, narrow. simpl. generalize (cells t). intros l.
  induction l as [| ex l IH]; simpl; [tauto |].
  rewrite in_app_iff, in_map_iff. intros [(u & <- & Hu) | H].
  - exists u. rewrite in_app_iff. tauto.
  - destruct (IH H) as (u & Hu & ->). exists u. rewrite in_app_iff. tauto.
Qed.

Lemma in_frames_cat a b t v :
  cat_seq a b = Ok t → In v (frames t) → In v (frames a) ∨ In v (frames b).
Proof.
  unfold cat_seq. destruct (_ && _); [| discriminate].
  intros [= <-]. apply in_concat_zip_app.
Qed.

Lemma run_hook_only_from (trace : list (event A)) h name ev r :
  In ev trace →
  only_from trace (activations r) →
  only_from trace (activations (run_hook h name ev.2 r).2).
Proof.
  intros Hev Hinv.
  unfold run_hook, base_caching_hook, whisper_caching_hook, del_activation.
  destruct h as [n | f].
  - destruct (policy r); simpl.
    + intros k t Hk v Hv. destruct (decide (n = k)) as [-> | Hne].
      * rewrite lookup_insert_eq in Hk. injection Hk as <-. exists ev, v. tauto.
      * rewrite lookup_insert_ne in Hk by done. eauto.
    + destruct (contains "decoder" n && (1 <? seq_len ev.2)).
      * destruct (activations r !! n) as [old |] eqn:Hn; simpl; [| done].
        intros k t Hk. apply lookup_delete_Some in Hk as [_ Hk]. eauto.
      * destruct (activations r !! n) as [acc |] eqn:Hn.
        -- destruct (cat_seq acc ev.2) as [c | e] eqn:Hc; simpl; [| done].
           intros k t Hk v Hv. destruct (decide (n = k)) as [-> | Hne].
           ++ rewrite lookup_insert_eq in Hk. injection Hk as <-.
              destruct (in_frames_cat _ _ _ _ Hc Hv) as [Hv' | Hv'].
              ** eauto.
              ** exists ev, v. tauto.
           ++ rewrite lookup_insert_ne in Hk by done. eauto.
        -- simpl. intros k t Hk v Hv. destruct (decide (n = k)) as [-> | Hne].
           ++ rewrite lookup_insert_eq in Hk. injection Hk as <-.
              apply in_frames_narrow in Hv as (u & Hu & ->).
              exists ev, u. tauto.
           ++ rewrite lookup_insert_ne in Hk by done. eauto.
  - destruct (f name ev.2); done.
Qed.

Lemma fire_only_from (trace : list (event A)) registered ev r :
  In ev trace →
  only_from trace (activations r) →
  only_from trace (activations (fire registered ev r).2).
Proof.
  intros Hev. revert r. induction registered as [| [id [m h]] rest IH]; intros r Hinv; simpl.
  - done.
  - destruct (String.eqb m ev.1); [| by apply IH].
    pose proof (run_hook_only_from trace h ev.1 ev r Hev Hinv) as H1.
    destruct (run_hook h ev.1 ev.2 r) as [[u | e] r1]; simpl in *; [| done].
    by apply IH.
Qed.

Lemma run_model_only_from (trace rest : list (event A)) r :
  (∀ ev, In ev rest → In ev trace) →
  only_from trace (activations r) →
  only_from trace (activations (run_model rest r).2).
Proof.
  revert r. induction rest as [| ev rest IH]; intros r Hsub Hinv; simpl.
  - done.
  - assert (In ev trace) as Hev by (apply Hsub; simpl; tauto).
    pose proof (fire_only_from trace (forward_hooks (model r)) ev r Hev Hinv) as H1.
    destruct (fire (forward_hooks (model r)) ev r) as [[u | e] r1]; simpl in *; [| done].
    apply IH; [| done]. intros ev' Hev'. apply Hsub. simpl. tauto.
Qed.

End RecorderFacts.

Import Py HookedModel RecorderSpec.

(** ** Auxiliary facts on the Whisper caching hook *)

(** A decoder-side output longer than one position deletes the entry of
    its submodule; with no entry to delete, [del] raises. *)
Lemma whisper_hook_priming {A : Type} (name : string) (output : tensor A) (r : recorder A) :
  contains "decoder" name = true →
  1 < seq_len output →
  whisper_caching_hook name output r
  = match activations r !! name with
    | Some _ => (Ok tt, set_activations (delete name (activations r)) r)
    | None => (Raise (KeyError name), r)
    end.
Proof.
  intros Hdec Hlen. unfold whisper_caching_hook, del_activation.
  rewrite Hdec. apply Nat.ltb_lt in Hlen. by rewrite Hlen.
Qed.

(** The first capture of a submodule is cut to 50 channels. *)
Lemma whisper_hook_first {A : Type} (name : string) (output : tensor A) (r : recorder A) :
  contains "decoder" name && (1 <? seq_len output) = false →
  activations r !! name = None →
  whisper_caching_hook name output r
  = (Ok tt, set_activations (<[name := narrow 50 output]> (activations r)) r).
Proof.
  intros Hkeep Hnone. unfold whisper_caching_hook. by rewrite Hkeep, Hnone.
Qed.

(** A later capture is appended, uncut, after what was accumulated, when
    batch size and width agree; otherwise the concatenation raises. *)
Lemma whisper_hook_next {A : Type} (name : string) (acc output : tensor A) (r : recorder A) :
  contains "decoder" name && (1 <? seq_len output) = false →
  activations r !! name = Some acc →
  whisper_caching_hook name output r
  = if (bsz acc =? bsz output) && (width acc =? width output)
    then (Ok tt,
          set_activations
            (<[name := mkTensor (bsz acc) (seq_len acc + seq_len output) (width acc)
                                (zip_with app (cells acc) (cells output))]>
               (activations r)) r)
    else (Raise RuntimeError, r).
Proof.
  intros Hkeep Hsome. unfold whisper_caching_hook, cat_seq.
  rewrite Hkeep, Hsome.
  destruct ((bsz acc =? bsz output) && (width acc =? width output)); reflexivity.
Qed.

(** Two captures of the same width above 50: the first is stored cut to
    50 channels, and the second, uncut, cannot be concatenated to it. *)
Lemma whisper_hook_wide_second_raises
    {A : Type} (name : string) (o1 o2 : tensor A) (r : recorder A) :
  contains "decoder" name && (1 <? seq_len o1) = false →
  contains "decoder" name && (1 <? seq_len o2) = false →
  activations r !! name = None →
  50 < width o1 →
  width o2 = width o1 →
  whisper_caching_hook name o2 (whisper_caching_hook name o1 r).2
  = (Raise RuntimeError, (whisper_caching_hook name o1 r).2)
  ∧ activations (whisper_caching_hook name o1 r).2 !! name = Some (narrow 50 o1).
Proof.
  intros Hk1 Hk2 Hnone Hwide Hsame.
  rewrite (whisper_hook_first name o1 r Hk1 Hnone). simpl.
  split; [| by rewrite lookup_insert_eq].
  rewrite (whisper_hook_next name (narrow 50 o1) o2) by (simpl; by rewrite ?lookup_insert_eq).
  simpl.
  assert ((width o1 `min` 50 =? width o2) = false) as -> by (apply Nat.eqb_neq; lia).
  by rewrite andb_false_r.
Qed.

(** ** Claims *)

(** C2 (amended).  [forward] does not clear the mapping; after
    [reset_state], which the live loader calls before every pass, the
    mapping left by [forward] holds only feature vectors captured during
    that pass, however the pass ends. *)
Theorem forward_after_reset_only_this_pass
    {A Out : Type} (r : recorder A) (x : list (event A) * Out) :
  only_from x.1 (activations (forward x (reset_state r)).2).
Proof.
  unfold forward, custom_forward, register_hooks.
  set (r1 := HookedModel.set_step A _ _).
  destruct (register_loop_spec (named_modules (model r1)) r1) as (added & _ & _ & _ & _ & Hacts).
  set (r2 := register_loop A _ r1) in *.
  assert (only_from x.1 (activations r2)) as Hinv.
  { rewrite Hacts. intros name t Hk. simpl in Hk. by rewrite lookup_empty in Hk. }
  pose proof (run_model_only_from x.1 x.1 r2 (fun _ H => H) Hinv) as Hrun.
  destruct (run_model x.1 r2) as [[u | e] r3]; simpl in *; exact Hrun.
Qed.

(** C2, as stated, fails: a second [forward] with no [reset_state] in
    between leaves the capture of the first pass in the mapping, in front
    of its own. *)
Lemma forward_without_reset_keeps_previous_pass :
  activations
    (forward ([(Sample.enc_mlp, Sample.token 7)], tt)
       (forward ([(Sample.enc_mlp, Sample.token 1)], tt) Sample.cache).2).2
    !! Sample.enc_mlp
  = Some (mkTensor 1 2 2 [[[1; 2]; [7; 8]]]%Z)
  ∧ ¬ only_from [(Sample.enc_mlp, Sample.token 7)]
        (activations
           (forward ([(Sample.enc_mlp, Sample.token 7)], tt)
              (forward ([(Sample.enc_mlp, Sample.token 1)], tt) Sample.cache).2).2).
Proof.
  assert (activations
    (forward ([(Sample.enc_mlp, Sample.token 7)], tt)
       (forward ([(Sample.enc_mlp, Sample.token 1)], tt) Sample.cache).2).2
    !! Sample.enc_mlp
  = Some (mkTensor 1 2 2 [[[1; 2]; [7; 8]]]%Z)) as Hlook by (vm_compute; reflexivity).
  split; [exact Hlook |].
  intros Honly.
  destruct (Honly _ _ Hlook [1; 2]%Z) as (ev & w & Hev & Hw & Hv).
  { simpl. tauto. }
  destruct Hev as [<- | []]. simpl in Hw.
  destruct Hw as [<- | []]. destruct Hv as [Hv | Hv]; discriminate Hv.
Qed.

(** C3.  On the code, a decoder-side capture of sequence length 5 that is
    the first invocation of its submodule in a pass is not discarded:
    [del] finds no entry, the hook raises KeyError, and [forward] ends
    there, with its hooks still registered. *)
Theorem decoder_priming_first_capture_raises :
  forward ([(Sample.dec_mlp, Sample.priming)], tt) Sample.cache
  = (Raise (KeyError Sample.dec_mlp),
     mkRecorder
       (mkModule [""; Sample.enc_mlp; Sample.dec_mlp]
                 [(0, (Sample.enc_mlp, CachingHook Sample.enc_mlp));
                  (1, (Sample.dec_mlp, CachingHook Sample.dec_mlp))] 2)
       1 ∅ [0; 1] [Sample.dec_mlp; Sample.enc_mlp] None WhisperCaching).
Proof. vm_compute. reflexivity. Qed.

(** C4 (amended).  Construction on a model none of whose submodule names
    matches any pattern succeeds, with an empty capture set. *)
Theorem init_without_match_succeeds
    {A : Type} (regex_match : string → string → result bool)
    (natsorted : list string → list string)
    (cls : caching_policy) (m : torch_module A)
    (hook_fn : option (custom_hook A)) (activation_regex : list string) :
  natsorted [] = [] →
  (∀ name p, In name (named_modules m) → In p activation_regex →
             regex_match p name = Ok false) →
  init regex_match natsorted cls (Some m) hook_fn activation_regex
  = Ok (mkRecorder m 0 ∅ [] [] hook_fn cls).
Proof.
  intros Hsort Hnone. unfold init.
  assert (∀ names, (∀ name, In name names → In name (named_modules m)) →
                   matched_names regex_match names activation_regex = Ok []) as Hall.
  { induction names as [| name rest IH]; intros Hsub; simpl; [done |].
    assert (any_match regex_match activation_regex name = Ok false) as ->.
    { assert (∀ ps, (∀ p, In p ps → In p activation_regex) →
                    any_match regex_match ps name = Ok false) as Hany.
      { induction ps as [| p ps IHp]; intros Hps; simpl; [done |].
        rewrite (Hnone name p) by (try apply Hsub; try apply Hps; simpl; tauto).
        simpl. apply IHp. intros q Hq. apply Hps. simpl. tauto. }
      apply Hany. tauto. }
    simpl. rewrite IH; [done |]. intros n Hn. apply Hsub. simpl. tauto. }
  rewrite Hall by tauto. simpl. by rewrite Hsort.
Qed.

Lemma init_without_match_succeeds_witness :
  init Lib.literal_match Lib.natsorted WhisperCaching (Some Sample.whisper) None ["blocks"]
  = Ok (mkRecorder Sample.whisper 0 ∅ [] [] None WhisperCaching).
Proof.
  apply (init_without_match_succeeds Lib.literal_match Lib.natsorted).
  - reflexivity.
  - simpl. intros name p [<- | [<- | [<- | []]]] [<- | []]; reflexivity.
Defined.

(** C4, as stated, fails: with the single pattern "blocks", which no name
    of the model starts with, construction returns a recorder whose
    capture set is empty. *)
Lemma init_without_match_is_silent :
  ∃ r : recorder Z,
    init Lib.literal_match Lib.natsorted WhisperCaching (Some Sample.whisper) None ["blocks"]
    = Ok r
    ∧ activations_to_cache r = [].
Proof. eexists. split; [vm_compute; reflexivity | reflexivity]. Qed.

(** C5.  On the code, three decoder-side captures of sequence length 1
    and width 51 are not assembled: the first is cut to 50 channels, the
    second is concatenated uncut, [torch.cat] raises on the widths 50 and
    51, and the mapping keeps the first capture alone. *)
Theorem wide_captures_do_not_concatenate :
  (forward ([(Sample.dec_mlp, Sample.wide_token 1);
             (Sample.dec_mlp, Sample.wide_token 3);
             (Sample.dec_mlp, Sample.wide_token 5)], tt) Sample.cache).1
  = Raise RuntimeError
  ∧ activations
      (forward ([(Sample.dec_mlp, Sample.wide_token 1);
                 (Sample.dec_mlp, Sample.wide_token 3);
                 (Sample.dec_mlp, Sample.wide_token 5)], tt) Sample.cache).2
    !! Sample.dec_mlp
    = Some (mkTensor 1 1 50 [[replicate 50 1%Z]]).
Proof. split; vm_compute; reflexivity. Qed.

(** With captures no wider than 50 channels the same pass assembles the
    three positions in invocation order. *)
Example narrow_captures_concatenate :
  forward ([(Sample.dec_mlp, Sample.token 1);
            (Sample.dec_mlp, Sample.token 3);
            (Sample.dec_mlp, Sample.token 5)], tt) Sample.cache
  = (Ok tt,
     mkRecorder (mkModule [""; Sample.enc_mlp; Sample.dec_mlp] [] 2) 1
       {[ Sample.dec_mlp := mkTensor 1 3 2 [[[1; 2]; [3; 4]; [5; 6]]]%Z ]}
       [] [Sample.dec_mlp; Sample.enc_mlp] None WhisperCaching).
Proof. vm_compute. reflexivity. Qed.

(** C9.  A [forward] that returns leaves the list of handles empty and
    none of the hooks it registered on the model; what remains on the
    model was there before the call, and a model whose hooks all came from
    earlier handles is left exactly as it was found. *)
Theorem forward_leaves_no_hooks
    {A Out : Type} (r r' : recorder A) (x : list (event A) * Out) (out : Out) :
  forward x r = (Ok out, r') →
  hooks r' = []
  ∧ (∀ h, next_handle (model r) ≤ h < next_handle (model r') →
          ¬ In h (map fst (forward_hooks (model r'))))
  ∧ (∀ e, In e (forward_hooks (model r')) → In e (forward_hooks (model r)))
  ∧ (hooks r = [] → ids_below_next (model r) →
     forward_hooks (model r') = forward_hooks (model r)).
Proof.
  unfold forward, custom_forward, register_hooks.
  set (r1 := HookedModel.set_step A _ _).
  destruct (register_loop_spec (named_modules (model r1)) r1)
    as (added & Hh & Hf & Hs & Hn & _).
  set (r2 := register_loop A _ r1) in *.
  pose proof (run_model_wiring x.1 r2) as [Hm3 Hh3].
  destruct (run_model x.1 r2) as [[u | e] r3]; simpl in *; [| discriminate].
  intros [= _ <-]. unfold remove_hooks. simpl.
  destruct (remove_handles_spec (model r3) (hooks r3)) as [Hrem Hnext].
  rewrite Hrem, Hnext, Hm3, Hh3, Hf, Hh, Hn, filter_app.
  assert (filter (fun e : nat * (string * hook A) => e.1 ∉ hooks r ++ map fst added) added = [])
    as Hgone.
  { apply filter_drops_all, Forall_forall. intros e He Hnot. apply Hnot.
    apply elem_of_app. right. apply list_elem_of_fmap. by exists e. }
  rewrite Hgone, app_nil_r.
  split; [done |]. split; [| split].
  - intros h Hrange Hin. apply in_map_iff in Hin as (e & <- & He).
    apply list_elem_of_In, list_elem_of_filter in He as [Hnot _].
    apply Hnot, elem_of_app. right.
    rewrite Hs. apply list_elem_of_In, in_seq. lia.
  - intros e He. apply list_elem_of_In, list_elem_of_filter in He as [_ He].
    by apply list_elem_of_In.
  - intros Hnil Hbelow. rewrite Hnil. simpl.
    apply filter_keeps_all. unfold ids_below_next in Hbelow.
    rewrite Forall_forall in Hbelow |- *. intros e He Hin.
    specialize (Hbelow e He).
    rewrite Hs in Hin. apply list_elem_of_In, in_seq in Hin. lia.
Qed.

Lemma forward_leaves_no_hooks_witness :
  hooks (forward ([(Sample.dec_mlp, Sample.token 1)], tt) Sample.cache).2 = []
  ∧ forward_hooks (model (forward ([(Sample.dec_mlp, Sample.token 1)], tt) Sample.cache).2)
    = forward_hooks (model Sample.cache).
Proof.
  destruct (forward_leaves_no_hooks Sample.cache
              (forward ([(Sample.dec_mlp, Sample.token 1)], tt) Sample.cache).2
              ([(Sample.dec_mlp, Sample.token 1)], tt) tt)
    as (Hh & _ & _ & Hsame).
  - vm_compute. reflexivity.
  - split; [exact Hh |]. apply Hsame; [reflexivity | constructor].
Defined.

(* ===================================================================== *)
(** * Theorems: the L1 autoencoder                                        *)
(* ===================================================================== *)

Section L1Facts.
Import Py HookedModel L1.
Local Open Scope R_scope.

(** ** Columns of a normalized matrix *)

Lemma nth_zip_with_div (row denom : list R) (j : nat) :
  (j < length row)%nat → (j < length denom)%nat →
  nth j (zip_with Rdiv row denom) 0 = nth j row 0 / nth j denom 0.
Proof.
  revert denom j. induction row as [| a row IH]; intros [| d denom] [| j]; simpl;
    intros H1 H2; try lia; [reflexivity |].
  apply IH; lia.
Qed.

Lemma nth_map_seq (f : nat → R) (n j : nat) :
  (j < n)%nat → nth j (map f (seq 0 n)) 0 = f j.
Proof.
  intros Hj. rewrite (nth_indep _ 0 (f 0%nat)) by (rewrite length_map, length_seq; lia).
  rewrite (map_nth f). by rewrite seq_nth.
Qed.

Lemma column_normalize (n : nat) (W : list (list R)) (j : nat) :
  (j < n)%nat →
  Forall (fun row => length row = n) W →
  column j (normalize_dim0 n W)
  = map (fun x => x / Rmax (norm2 (column j W)) eps) (column j W).
Proof.
  intros Hj Hrows. unfold normalize_dim0.
  set (denom := map _ (seq 0 n)).
  assert (nth j denom 0 = Rmax (norm2 (column j W)) eps) as Hd
    by (unfold denom; by rewrite nth_map_seq).
  unfold column. rewrite !map_map.
  apply map_ext_Forall. eapply Forall_impl; [exact Hrows |].
  intros row Hlen. simpl in *. rewrite nth_zip_with_div.
  - by rewrite Hd.
  - lia.
  - unfold denom. rewrite length_map, length_seq. lia.
Qed.

(** ** Sums over flattened tensors *)

Lemma sum_app (l1 l2 : list R) : sum (l1 ++ l2) = sum l1 + sum l2.
Proof. induction l1 as [| a l1 IH]; simpl; [lra |]. rewrite IH. lra. Qed.

Lemma sum_concat (ls : list (list R)) : sum (concat ls) = sum (map sum ls).
Proof.
  induction ls as [| l ls IH]; simpl; [reflexivity |].
  by rewrite sum_app, IH.
Qed.

Lemma zip_with_app_same {X Y Z : Type} (f : X → Y → Z) (a1 a2 : list X) (b1 b2 : list Y) :
  length a1 = length b1 →
  zip_with f (a1 ++ a2) (b1 ++ b2) = zip_with f a1 b1 ++ zip_with f a2 b2.
Proof.
  revert b1. induction a1 as [| x a1 IH]; intros [| y b1] Hlen; simpl in *;
    try discriminate; [reflexivity |].
  f_equal. apply IH. lia.
Qed.

Lemma same_dims_concat_length (ea eb : list (list R)) :
  Forall2 (fun u v : list R => length u = length v) ea eb →
  length (concat ea) = length (concat eb).
Proof.
  induction 1 as [| u v ea eb Huv _ IH]; simpl; [reflexivity |].
  rewrite !length_app. lia.
Qed.

Lemma sum3_flatten (f : R → R → R) (a b : list (list (list R))) :
  same_dims a b →
  sum3 f a b = sum (zip_with f (concat (concat a)) (concat (concat b))).
Proof.
  unfold sum3. induction 1 as [| ea eb a b Hab _ IH]; simpl; [reflexivity |].
  rewrite !concat_app.
  rewrite zip_with_app_same by (by apply same_dims_concat_length).
  rewrite sum_app, IH. f_equal.
  clear IH. induction Hab as [| u v ea eb Huv _ IH]; simpl; [reflexivity |].
  rewrite zip_with_app_same by done. by rewrite sum_app, IH.
Qed.

Lemma count3_flatten (p : R → bool) (b : list (list (list R))) :
  count3 p b = length (filter (fun x => p x = true) (concat (concat b))).
Proof.
  unfold count3. induction b as [| eb b IH]; simpl; [reflexivity |].
  rewrite concat_app, filter_app, length_app, IH. f_equal.
  clear IH. induction eb as [| v eb IH]; simpl; [reflexivity |].
  by rewrite filter_app, length_app, IH.
Qed.

(** The selection by the mask, then the squared differences, against the
    sum with an indicator, on flat lists. *)
Lemma masked_squares (s : R) (l1 l2 : list R) :
  length l1 = length l2 →
  let mask := map (fun t => Req_bool t s) l2 in
  let out := zip_with (fun a b => (a - b) * (a - b))
                      (select_unmasked mask l1) (select_unmasked mask l2) in
  sum out = sum (zip_with (fun a b => if Req_bool b s then 0 else (a - b) * (a - b)) l1 l2)
  ∧ length out = length (filter (fun x => negb (Req_bool x s) = true) l2).
Proof.
  revert l2. induction l1 as [| a l1 IH]; intros [| b l2] Hlen; simpl in *;
    try discriminate; [split; reflexivity |].
  destruct (IH l2) as [Hsum Hcount]; [lia |].
  unfold select_unmasked in *. simpl.
  destruct (Req_bool b s) eqn:Hb; simpl.
  - rewrite !filter_cons_False
      by (cbv beta; try rewrite Hb; simpl; first [tauto | congruence]).
    split; [lra | exact Hcount].
  - rewrite !filter_cons_True
      by (cbv beta; try rewrite Hb; simpl; first [tauto | congruence]).
    simpl. split; [lra | lia].
Qed.

Lemma mean_spec (l : list R) :
  mean l = if (length l =? 0)%nat then None else Some (sum l / INR (length l)).
Proof. by destruct l. Qed.

End L1Facts.

Section L1Losses.
Import Py HookedModel L1.
Local Open Scope R_scope.

Lemma concat_map_map_length {X Y : Type} (f : X → Y) (s : nat) (l : list (list X)) :
  Forall (fun ex => length ex = s) l →
  length (concat (map (map f) l)) = (length l * s)%nat.
Proof.
  induction 1 as [| ex l Hex _ IH]; simpl; [reflexivity |].
  rewrite length_app, length_map, IH. lia.
Qed.

(** [torch.norm(c, 1, dim=2).mean()] is the mean, over examples and
    positions, of the L1 norms across the feature axis. *)
Lemma norm1_mean_spec (c : rtensor) :
  well_shaped c → norm1_dim2_mean c = spec_sparsity_loss c.
Proof.
  intros [Hb Hrows]. unfold norm1_dim2_mean, spec_sparsity_loss.
  rewrite mean_spec.
  rewrite (concat_map_map_length norm1 (seq_len c)), Hb
    by (eapply Forall_impl; [exact Hrows |]; simpl; tauto).
  destruct (bsz c * seq_len c =? 0)%nat; [reflexivity |].
  by rewrite sum_concat, map_map.
Qed.

Lemma same_dims_map (F : list R → list R) (x : rtensor) :
  well_shaped x →
  (∀ v, length (F v) = width x) →
  same_dims (map (map F) (cells x)) (cells x).
Proof.
  intros [_ Hrows] HF. unfold same_dims.
  induction Hrows as [| ex l [_ Hex] _ IH]; simpl; constructor; [| exact IH].
  induction Hex as [| v ex Hv _ IHv]; simpl; constructor; [| exact IHv].
  rewrite HF. by rewrite Hv.
Qed.

Lemma same_dims_flatten_length (a b : list (list (list R))) :
  same_dims a b → length (concat (concat a)) = length (concat (concat b)).
Proof.
  induction 1 as [| ea eb a b Hab _ IH]; simpl; [reflexivity |].
  rewrite !concat_app, !length_app, IH.
  by rewrite (same_dims_concat_length ea eb).
Qed.

(** The masked selection of [mse_loss] under "mean" is the mean of the
    squared differences over the positions where the target is not the
    sentinel. *)
Lemma masked_mean_spec (s : R) (x_hat x : rtensor) :
  same_dims (cells x_hat) (cells x) →
  mean (zip_with (fun a b => (a - b) * (a - b))
          (select_unmasked (map (fun t => Req_bool t s) (flatten x)) (flatten x_hat))
          (select_unmasked (map (fun t => Req_bool t s) (flatten x)) (flatten x)))
  = spec_masked_mse s x_hat x.
Proof.
  intros Hdims. unfold spec_masked_mse, flatten.
  destruct (masked_squares s (concat (concat (cells x_hat))) (concat (concat (cells x)))
              (same_dims_flatten_length _ _ Hdims)) as [Hsum Hlen].
  rewrite mean_spec, Hsum, Hlen, count3_flatten, <- sum3_flatten by done.
  reflexivity.
Qed.

End L1Losses.

(** ** Claims *)

(** C1 (amended).  Every call to [encode] replaces the decoder weight by
    [normalize(weight, dim=0)], also when the call then fails on the width
    of its input, and computes the latent code with the replaced weight.
    The replacement divides each column by the larger of its L2 norm and
    [eps = 1e-12]: by its norm when that is at least [eps], while a column
    of zeros stays a column of zeros.  A second call does the same to the
    weight the first one left.  Nothing is said of the norm that results:
    it is 1 only as far as the clamp and the rounding of the division
    allow. *)
Theorem encode_renormalizes_columns (m : L1.L1AutoEncoder) (x y : L1.rtensor) :
  L1.well_formed m →
  (L1.encode x m).2
  = L1.set_decoder_weight
      (L1.normalize_dim0 (L1.n_dict_components m) (L1.decoder_weight m)) m
  ∧ (L1.encode x m).1
    = (if HookedModel.width x =? L1.activation_size m
       then Py.Ok (L1.mkEncoded
              (HookedModel.mkTensor (HookedModel.bsz x) (HookedModel.seq_len x)
                 (L1.n_dict_components m)
                 (map (map (L1.encode_vec (L1.encode x m).2)) (HookedModel.cells x))))
       else Py.Raise Py.RuntimeError)
  ∧ (∀ j, j < L1.n_dict_components m →
          L1.column j (L1.decoder_weight (L1.encode x m).2)
          = map (fun w => (w / Rmax (L1.norm2 (L1.column j (L1.decoder_weight m))) L1.eps)%R)
                (L1.column j (L1.decoder_weight m)))
  ∧ (∀ j, j < L1.n_dict_components m →
          (L1.eps <= L1.norm2 (L1.column j (L1.decoder_weight m)))%R →
          L1.column j (L1.decoder_weight (L1.encode x m).2)
          = map (fun w => (w / L1.norm2 (L1.column j (L1.decoder_weight m)))%R)
                (L1.column j (L1.decoder_weight m)))
  ∧ (∀ j, j < L1.n_dict_components m →
          Forall (fun w => w = 0%R) (L1.column j (L1.decoder_weight m)) →
          L1.column j (L1.decoder_weight (L1.encode x m).2)
          = L1.column j (L1.decoder_weight m))
  ∧ (L1.encode y (L1.encode x m).2).2
    = L1.set_decoder_weight
        (L1.normalize_dim0 (L1.n_dict_components m)
           (L1.decoder_weight (L1.encode x m).2))
        (L1.encode x m).2.
Proof.
  intros (Hlen & Hrows & Hbias).
  assert (∀ z m0, (L1.encode z m0).2
                  = L1.set_decoder_weight
                      (L1.normalize_dim0 (L1.n_dict_components m0) (L1.decoder_weight m0)) m0)
    as Hstate.
  { intros z m0. unfold L1.encode. by destruct (_ =? _). }
  assert (∀ j, j < L1.n_dict_components m →
            L1.column j (L1.decoder_weight (L1.encode x m).2)
            = map (fun w => (w / Rmax (L1.norm2 (L1.column j (L1.decoder_weight m))) L1.eps)%R)
                  (L1.column j (L1.decoder_weight m)))
    as Hcol.
  { intros j Hj. rewrite Hstate. simpl. by apply column_normalize. }
  split; [apply Hstate |].
  split; [unfold L1.encode; simpl; by destruct (_ =? _) |].
  split; [exact Hcol |].
  split; [| split].
  - intros j Hj Hbig. rewrite Hcol by done. by rewrite Rmax_left.
  - intros j Hj Hzero. rewrite Hcol by done.
    set (dv := Rmax _ _). clearbody dv. revert Hzero.
    generalize (L1.column j (L1.decoder_weight m)). intros col Hzero.
    induction Hzero as [| w col -> _ IH]; simpl; [reflexivity |].
    rewrite IH. f_equal. unfold Rdiv. ring.
  - rewrite (Hstate y). by rewrite (Hstate x) at 1.
Qed.

Lemma encode_renormalizes_columns_witness :
  (L1.encode Sample.input Sample.sae).2
  = L1.set_decoder_weight
      (L1.normalize_dim0 2 (L1.decoder_weight Sample.sae)) Sample.sae
  ∧ L1.column 1 (L1.decoder_weight (L1.encode Sample.input Sample.sae).2)
    = map (fun w => (w / L1.norm2 (L1.column 1 (L1.decoder_weight Sample.sae)))%R)
          (L1.column 1 (L1.decoder_weight Sample.sae)).
Proof.
  destruct (encode_renormalizes_columns Sample.sae Sample.input Sample.input)
    as (Hstate & _ & _ & Hbig & _).
  - repeat split; repeat constructor.
  - split; [exact Hstate |]. apply (Hbig 1); [simpl; lia |].
    unfold L1.norm2, L1.column, L1.sum, L1.eps. simpl.
    replace (0 * 0 + (1 * 1 + 0))%R with (1 * 1)%R by ring.
    rewrite sqrt_square by lra. lra.
Defined.

(** C1, as stated, fails: a column of zeros is divided by [eps] and
    stays a column of zeros; its norm after [encode] is 0, not 1. *)
Lemma encode_keeps_zero_column :
  L1.norm2 (L1.column 0 (L1.decoder_weight (L1.encode Sample.unit_input Sample.zero_sae).2))
  ≠ 1%R.
Proof.
  unfold L1.norm2 at 1. unfold L1.column, L1.sum. simpl.
  replace (0 / Rmax (L1.norm2 [0%R]) L1.eps * (0 / Rmax (L1.norm2 [0%R]) L1.eps) + 0)%R
    with 0%R by (unfold Rdiv; ring).
  rewrite sqrt_0. lra.
Qed.

(** Nor is the normalization a fixed point once rounding is taken into
    account.  In single precision the column (1, 3) is divided by the
    rounded square root of 10; the norm of what results is the float just
    below 1, and a second normalization moves both entries by one unit in
    the last place. *)
Lemma binary32_normalize_twice_differs :
  let W := [[Binary32.of_Z 1]; [Binary32.of_Z 3]] in
  let W1 := Binary32.normalize_dim0 1 W in
  Binary32.norm2 (Binary32.column 0 W1) ≠ Binary32.of_Z 1
  ∧ Binary32.norm2 (Binary32.column 0 W1) = SpecFloat.S754_finite false 16777215 (-24)
  ∧ Binary32.normalize_dim0 1 W1 ≠ W1
  ∧ nth 0 (Binary32.column 0 (Binary32.normalize_dim0 1 W1)) (Binary32.of_Z 0)
    ≠ nth 0 (Binary32.column 0 W1) (Binary32.of_Z 0)
  ∧ nth 1 (Binary32.column 0 (Binary32.normalize_dim0 1 W1)) (Binary32.of_Z 0)
    ≠ nth 1 (Binary32.column 0 W1) (Binary32.of_Z 0).
Proof.
  vm_compute. repeat split; congruence.
Qed.

(** C6.  For an input of the width the module expects, [forward] returns
    as sparsity loss the mean over examples and positions of the L1 norm
    of the latent code across the feature axis, and as reconstruction loss
    [recon_alpha] times the mean squared error between reconstruction and
    input over the positions where the input is not -1 (an empty mean is
    nan on both sides). *)
Theorem forward_losses (m : L1.L1AutoEncoder) (x : L1.rtensor) (return_mse : bool) :
  L1.well_formed m →
  HookedModel.well_shaped x →
  HookedModel.width x = L1.activation_size m →
  ∃ out extra,
    (L1.forward x return_mse m).1 = Py.Ok (out, extra)
    ∧ (L1.encode x m).1 = Py.Ok (L1.encoded out)
    ∧ L1.decoder (L1.latent (L1.encoded out)) (L1.encode x m).2 = Py.Ok (L1.sae_out out)
    ∧ L1.l1_loss out = L1.spec_sparsity_loss (L1.latent (L1.encoded out))
    ∧ L1.reconstruction_loss out
      = L1.Scalar (Rmult (L1.recon_alpha m) <$> L1.spec_masked_mse (-1) (L1.sae_out out) x).
Proof.
  intros (Hlen & Hrows & Hbias) Hx Hw.
  unfold L1.forward, L1.encode. simpl.
  rewrite Hw, Nat.eqb_refl. simpl.
  set (m' := L1.set_decoder_weight _ m).
  set (c := HookedModel.mkTensor _ _ _ _).
  unfold L1.decoder. simpl. rewrite Nat.eqb_refl. simpl.
  set (x_hat := HookedModel.mkTensor _ _ (L1.activation_size m) _).
  assert (L1.same_shape x_hat x = true) as Hshape.
  { unfold L1.same_shape. simpl. rewrite Hw, !Nat.eqb_refl. reflexivity. }
  unfold L1.mse_loss, L1.plain_mse. rewrite Hshape. simpl.
  assert (HookedModel.well_shaped c) as Hc.
  { destruct Hx as [Hb Hex]. split; simpl; [by rewrite length_map |].
    apply Forall_map. eapply Forall_impl; [exact Hex |].
    intros ex [Hs _]. simpl. split; [by rewrite length_map |].
    apply Forall_map, Forall_forall. intros v _. unfold L1.encode_vec.
    rewrite length_map, length_zip_with. unfold L1.vec_matmul.
    rewrite length_map, length_seq. simpl. lia. }
  assert (L1.same_dims (HookedModel.cells x_hat) (HookedModel.cells x)) as Hdims.
  { unfold x_hat, c. simpl. rewrite map_map.
    erewrite map_ext by (intros ex; apply map_map).
    apply (same_dims_map
             (fun v => map (L1.dot (L1.encode_vec m' v))
                           (L1.normalize_dim0 (L1.n_dict_components m) (L1.decoder_weight m))));
      [exact Hx |].
    intros v. rewrite length_map. unfold L1.normalize_dim0. rewrite length_map. lia. }
  pose proof (masked_mean_spec (-1) x_hat x Hdims) as Hmse.
  pose proof (norm1_mean_spec c Hc) as Hl1.
  destruct return_mse; simpl;
    eexists _, _; (split; [reflexivity |]); simpl;
    (split; [reflexivity |]); (split; [by rewrite Nat.eqb_refl |]);
    (split; [exact Hl1 |]); by rewrite Hmse.
Qed.

Lemma forward_losses_witness :
  ∃ out extra,
    (L1.forward Sample.input false Sample.sae).1 = Py.Ok (out, extra)
    ∧ L1.l1_loss out = L1.spec_sparsity_loss (L1.latent (L1.encoded out))
    ∧ L1.reconstruction_loss out
      = L1.Scalar (Rmult (L1.recon_alpha Sample.sae)
                     <$> L1.spec_masked_mse (-1) (L1.sae_out out) Sample.input).
Proof.
  destruct (forward_losses Sample.sae Sample.input false)
    as (out & extra & Hf & _ & _ & Hl1 & Hrec).
  - repeat split; repeat constructor.
  - repeat split; repeat constructor.
  - reflexivity.
  - exists out, extra. auto.
Defined.

(* ===================================================================== *)
(** * Theorems: the precomputed store and checkpoint loading               *)
(* ===================================================================== *)

Section StoreFacts.
Import Py Activations.
Context {B : Type}.

Lemma getitem_lookup {X : Type} (l : list X) (i : nat) (x : X) :
  l !! i = Some x → getitem l (Z.of_nat i) = Ok x.
Proof.
  intros Hl. unfold getitem.
  pose proof (lookup_lt_Some _ _ _ Hl) as Hlt.
  assert ((Z.of_nat i <? 0)%Z = false) as -> by lia.
  assert ((0 <=? Z.of_nat i)%Z && (Z.of_nat i <? Z.of_nat (length l))%Z = true) as ->
    by (apply andb_true_intro; split; lia).
  by rewrite Nat2Z.id, Hl.
Qed.

Lemma slice_to_take {X : Type} (l : list X) (n : Z) :
  (0 <= n)%Z → slice_to l n = take (Z.to_nat n) l.
Proof. intros Hn. unfold slice_to. by assert ((n <? 0)%Z = false) as -> by lia. Qed.

Lemma reshape_fits (row : list B) (dims : list Z) :
  Forall (fun d => (0 <= d)%Z) dims →
  product dims = Z.of_nat (length row) →
  reshape row dims = Ok (mkArray dims row).
Proof.
  intros Hpos Hprod. unfold reshape.
  rewrite (filter_drops_all (fun d => (d < 0)%Z) dims)
    by (eapply Forall_impl; [exact Hpos |]; simpl; lia).
  by rewrite Hprod, Z.eqb_refl.
Qed.

End StoreFacts.

(** ** Claims *)

(** C7 (amended).  [init_sae_from_checkpoint] takes the checkpoint and
    nothing else.  When the header holds its keys, the configuration class
    accepts the header's configuration and the constructor returns, it
    builds the L1 autoencoder when the header's variant is "l1" and the
    Top-K autoencoder for every other variant, from the header's
    activation size and configuration; it then loads the weights, raising
    the RuntimeError of [load_state_dict] when the state dictionary does
    not fit the module just built, and leaves training mode. *)
Theorem init_sae_follows_header
    {cfg_dict state_dict L1Config TopKConfig : Type}
    (l1_from_dict : cfg_dict → Py.result L1Config)
    (topk_from_dict : cfg_dict → Py.result TopKConfig)
    (constructor_raises : Activations.architecture L1Config TopKConfig → option Py.exn)
    (state_fits : Activations.architecture L1Config TopKConfig → state_dict → bool)
    (ckpt : Activations.checkpoint cfg_dict state_dict)
    (hp : Activations.hparams cfg_dict) (size : Z) (variant : string)
    (d : cfg_dict) (st : state_dict) :
  Activations.ckpt_hparams ckpt = Some hp →
  Activations.activation_size hp = Some size →
  Activations.autoencoder_variant hp = Some variant →
  Activations.autoencoder_config hp = Some d →
  Activations.ckpt_model ckpt = Some st →
  (∀ cfg,
     variant = "l1" →
     l1_from_dict d = Py.Ok cfg →
     constructor_raises (Activations.L1AutoEncoder size cfg) = None →
     Activations.init_sae_from_checkpoint
       l1_from_dict topk_from_dict constructor_raises state_fits ckpt
     = if state_fits (Activations.L1AutoEncoder size cfg) st
       then Py.Ok (Activations.mkSae (Activations.L1AutoEncoder size cfg) (Some st) false)
       else Py.Raise Py.RuntimeError)
  ∧ (∀ cfg,
     variant ≠ "l1" →
     topk_from_dict d = Py.Ok cfg →
     constructor_raises (Activations.TopKAutoEncoder size cfg) = None →
     Activations.init_sae_from_checkpoint
       l1_from_dict topk_from_dict constructor_raises state_fits ckpt
     = if state_fits (Activations.TopKAutoEncoder size cfg) st
       then Py.Ok (Activations.mkSae (Activations.TopKAutoEncoder size cfg) (Some st) false)
       else Py.Raise Py.RuntimeError).
Proof.
  intros Hhp Hsize Hvar Hcfg Hst.
  split; intros cfg Hv Hfrom Hnew; unfold Activations.init_sae_from_checkpoint;
    rewrite Hhp; simpl; rewrite Hsize; simpl; rewrite Hvar; simpl.
  - rewrite Hv. simpl. rewrite Hcfg. simpl. rewrite Hfrom. simpl.
    unfold Activations.construct. rewrite Hnew. simpl. rewrite Hst. simpl.
    unfold Activations.load_state_dict. simpl. by destruct (state_fits _ _).
  - apply String.eqb_neq in Hv. rewrite Hv, Hcfg. simpl. rewrite Hfrom. simpl.
    unfold Activations.construct. rewrite Hnew. simpl. rewrite Hst. simpl.
    unfold Activations.load_state_dict. simpl. by destruct (state_fits _ _).
Qed.

Lemma init_sae_follows_header_witness :
  Activations.init_sae_from_checkpoint
    Sample.from_dict Sample.from_dict Sample.constructor_raises Sample.fits
    Sample.l1_checkpoint
  = Py.Ok (Activations.mkSae
             (Activations.L1AutoEncoder 4%Z [("expansion_factor", 2%Z)])
             (Some ["decoder.weight"; "encoder_bias"]) false).
Proof.
  destruct (init_sae_follows_header
              Sample.from_dict Sample.from_dict Sample.constructor_raises Sample.fits
              Sample.l1_checkpoint
              (Activations.mkHparams (Some 4%Z) (Some "l1")
                 (Some [("expansion_factor", 2%Z)]))
              4%Z "l1" [("expansion_factor", 2%Z)] ["decoder.weight"; "encoder_bias"])
    as [Hl1 _];
    [reflexivity | reflexivity | reflexivity | reflexivity | reflexivity |].
  apply (Hl1 [("expansion_factor", 2%Z)]); reflexivity.
Defined.

(** C7, as stated, fails: no request accompanies the checkpoint, so a
    caller who wants a Top-K autoencoder of size 8 gets the L1 autoencoder
    of size 4 that the header describes, and no error. *)
Lemma checkpoint_mismatch_is_not_an_error :
  ∃ m,
    Activations.init_sae_from_checkpoint
      Sample.from_dict Sample.from_dict Sample.constructor_raises Sample.fits
      Sample.l1_checkpoint = Py.Ok m
    ∧ Activations.arch m = Activations.L1AutoEncoder 4%Z [("expansion_factor", 2%Z)]
    ∧ Activations.arch m ≠ Activations.TopKAutoEncoder 8%Z [("k", 32%Z)].
Proof.
  eexists. split; [reflexivity |]. simpl. split; [reflexivity | discriminate].
Qed.

(** C8.  In a store that keeps its invariant, reading a valid index [i]
    returns row [i] of the blob, unchanged and in order, under the shape
    recorded in entry [i] of the manifest, with the file identifier of
    entry [i]. *)
Theorem get_returns_reshaped_row
    {B : Type} (ds : Activations.MemoryMappedActivationsDataset B) (i : nat) :
  Activations.store_invariant (Activations.ds_metadata ds) (Activations.mmap ds) →
  i < Activations.len ds →
  ∃ filename dims row,
    Activations.filenames (Activations.ds_metadata ds) !! i = Some filename
    ∧ Activations.tensor_shapes (Activations.ds_metadata ds) !! i = Some dims
    ∧ Activations.mmap ds !! i = Some row
    ∧ Activations.get ds (Z.of_nat i)
      = Py.Ok (Activations.mkArray dims row, filename).
Proof.
  intros [Hlen Hrows] Hi. unfold Activations.len in Hi.
  destruct (lookup_lt_is_Some_2 _ _ Hi) as [filename Hf].
  destruct (lookup_lt_is_Some_2 (Activations.tensor_shapes (Activations.ds_metadata ds)) i)
    as [dims Hd]; [lia |].
  destruct (Forall2_lookup_l _ _ _ _ _ Hrows Hd) as (row & Hr & Hpos & Hprod).
  exists filename, dims, row. repeat split; try done.
  unfold Activations.get.
  rewrite (getitem_lookup _ _ _ Hf). simpl.
  rewrite (getitem_lookup _ _ _ Hd). simpl.
  rewrite (getitem_lookup _ _ _ Hr). simpl.
  by rewrite reshape_fits.
Qed.

Lemma get_returns_reshaped_row_witness :
  Activations.get Sample.store 0
  = Py.Ok (Activations.mkArray [3; 4]%Z [1; 2; 3; 4; 5; 6; 7; 8; 9; 10; 11; 12]%Z, "a.flac").
Proof.
  destruct (get_returns_reshaped_row Sample.store 0)
    as (filename & dims & row & Hf & Hd & Hr & Hget).
  - split; [reflexivity |].
    repeat constructor; vm_compute; congruence.
  - vm_compute. lia.
  - injection Hf as <-. injection Hd as <-. injection Hr as <-. exact Hget.
Defined.

(** C10 (amended).  With a [subset_size] of at least 1 on a store of at
    least one file that keeps its invariant, construction succeeds; file
    identifiers, shapes and blob are cut to the same first rows, the
    invariant still holds, entry [i] of the dataset is entry [i] of the
    store, and the length is the minimum of [subset_size] and the number
    of files. *)
Theorem init_subset_truncates_together
    {B : Type} (on_disk : Activations.metadata) (blob : list (list B)) (subset_size : Z) :
  Activations.store_invariant on_disk blob →
  (1 <= subset_size)%Z →
  1 <= length (Activations.filenames on_disk) →
  ∃ ds,
    Activations.init on_disk blob (Some subset_size) = Py.Ok ds
    ∧ Activations.filenames (Activations.ds_metadata ds)
      = take (Z.to_nat subset_size) (Activations.filenames on_disk)
    ∧ Activations.tensor_shapes (Activations.ds_metadata ds)
      = take (Z.to_nat subset_size) (Activations.tensor_shapes on_disk)
    ∧ Activations.mmap ds = take (Z.to_nat subset_size) blob
    ∧ Activations.store_invariant (Activations.ds_metadata ds) (Activations.mmap ds)
    ∧ Activations.len ds
      = Nat.min (Z.to_nat subset_size) (length (Activations.filenames on_disk))
    ∧ length (Activations.mmap ds) = Activations.len ds
    ∧ (∀ i, i < Activations.len ds →
         Activations.filenames (Activations.ds_metadata ds) !! i
         = Activations.filenames on_disk !! i
         ∧ Activations.tensor_shapes (Activations.ds_metadata ds) !! i
           = Activations.tensor_shapes on_disk !! i
         ∧ Activations.mmap ds !! i = blob !! i).
Proof.
  intros [Hlen Hrows] Hn HN.
  pose proof (Forall2_length _ _ _ Hrows) as Hblob.
  unfold Activations.init. rewrite !slice_to_take by lia. cbv beta iota zeta.
  set (k := Z.to_nat subset_size). assert (1 <= k) as Hk by lia.
  destruct (lookup_lt_is_Some_2 (take k (Activations.tensor_shapes on_disk)) 0)
    as [first Hfirst]; [rewrite length_take; lia |].
  pose proof (getitem_lookup _ 0 _ Hfirst) as Hprobe.
  change (Z.of_nat 0) with 0%Z in Hprobe.
  change (Activations.tensor_shapes
            (Activations.mkMetadata (take k (Activations.filenames on_disk))
                                    (take k (Activations.tensor_shapes on_disk))))
    with (take k (Activations.tensor_shapes on_disk)).
  rewrite Hprobe. simpl.
  eexists. split; [reflexivity |]. simpl.
  repeat split; unfold Activations.len in *; simpl in *;
    rewrite ?length_take in *; try lia;
    try (by apply Forall2_take); try (apply lookup_take_lt; lia).
Qed.

Lemma init_subset_truncates_together_witness :
  ∃ ds,
    Activations.init Sample.manifest Sample.blob (Some 2%Z) = Py.Ok ds
    ∧ Activations.len ds = 2
    ∧ length (Activations.mmap ds) = 2.
Proof.
  destruct (init_subset_truncates_together Sample.manifest Sample.blob 2)
    as (ds & Hinit & _ & _ & _ & _ & Hlen & Hrows & _).
  - split; [reflexivity |].
    repeat constructor; vm_compute; congruence.
  - lia.
  - vm_compute. lia.
  - exists ds. rewrite Hrows, Hlen. auto.
Defined.

(** C10, as stated, fails: with [subset_size = 0] the three parts are cut
    to no row at all, the probe of the first shape raises IndexError, and
    no dataset of length 0 comes out. *)
Lemma init_subset_zero_raises :
  Activations.init Sample.manifest Sample.blob (Some 0%Z) = Py.Raise Py.IndexError.
Proof. vm_compute. reflexivity. Qed.

(* ===================================================================== *)
(** * Further theorems: the recorder                                      *)
(* ===================================================================== *)

Section RecorderMoreFacts.
Import RecorderMore.
Context {A : Type}.
Implicit Types (r : recorder A) (t : tensor A) (ev : event A).

(** ** The pass changes nothing but the mapping *)

Lemma run_hook_only_activations h name t r :
  (run_hook h name t r).2 = set_activations (activations (run_hook h name t r).2) r.
Proof.
  destruct r as [m s a hs atc hf pol].
  unfold run_hook, base_caching_hook, whisper_caching_hook, del_activation. simpl.
  destruct h as [n | f].
  - destruct pol; simpl; [reflexivity |].
    destruct (contains "decoder" n && (1 <? seq_len t)).
    + destruct (a !! n); reflexivity.
    + destruct (a !! n) as [acc |]; [| reflexivity].
      destruct (cat_seq acc t); reflexivity.
  - destruct (f name t); reflexivity.
Qed.

Lemma fire_only_activations registered ev r :
  (fire registered ev r).2 = set_activations (activations (fire registered ev r).2) r.
Proof.
  revert r. induction registered as [| [id [m h]] rest IH]; intros r; simpl.
  - by destruct r.
  - destruct (String.eqb m ev.1); [| apply IH].
    pose proof (run_hook_only_activations h ev.1 ev.2 r) as H1.
    destruct (run_hook h ev.1 ev.2 r) as [[u | e] r1]; simpl in *; [| exact H1].
    rewrite (IH r1). rewrite H1 at 2. reflexivity.
Qed.

Lemma run_model_only_activations (trace : list (event A)) r :
  (run_model trace r).2 = set_activations (activations (run_model trace r).2) r.
Proof.
  revert r. induction trace as [| ev rest IH]; intros r; simpl.
  - by destruct r.
  - pose proof (fire_only_activations (forward_hooks (model r)) ev r) as H1.
    destruct (fire (forward_hooks (model r)) ev r) as [[u | e] r1]; simpl in *; [| exact H1].
    rewrite (IH r1). rewrite H1 at 2. reflexivity.
Qed.

(** ** What register_hooks puts on the model *)

Lemma register_loop_entries names r :
  let added := imap (fun i name => (next_handle (model r) + i, (name, hook_for r name)))
                    (filter (fun name => name ∈ activations_to_cache r) names) in
  register_loop A names r
  = HookedModel.set_hooks A (hooks r ++ map fst added)
      (HookedModel.set_model A
         (mkModule (named_modules (model r))
                   (forward_hooks (model r) ++ added)
                   (next_handle (model r) + length added)) r).
Proof.
  revert r. induction names as [| name rest IH];
    intros [[nm fh nh] s a hs atc hf pol]; simpl.
  - unfold HookedModel.set_hooks, HookedModel.set_model. simpl.
    by rewrite !app_nil_r, Nat.add_0_r.
  - case_bool_decide as Hin.
    + rewrite filter_cons_True by done. rewrite IH. simpl.
      unfold HookedModel.set_hooks, HookedModel.set_model, hook_for. simpl.
      assert (imap (fun i name0 => (S (nh + i),
                      (name0, match hf with
                              | Some f => CustomHook f
                              | None => CachingHook name0
                              end)))
                (filter (fun name0 => name0 ∈ atc) rest)
              = imap ((fun i name0 => (nh + i,
                      (name0, match hf with
                              | Some f => CustomHook f
                              | None => CachingHook name0
                              end))) ∘ S)
                  (filter (fun name0 => name0 ∈ atc) rest)) as Himap.
      { apply imap_ext. intros i n _. simpl. f_equal. lia. }
      rewrite Himap, <- !app_assoc, Nat.add_0_r. simpl.
      rewrite !length_imap. do 2 f_equal. lia.
    + rewrite filter_cons_False by done. apply IH.
Qed.


Lemma map_fst_imap_ids {X : Type} (base : nat) (g : string → X) (l : list string) :
  map fst (imap (fun i name => (base + i, (name, g name))) l) = seq base (length l).
Proof.
  revert base. induction l as [| n l IH]; intros base; simpl; [reflexivity |].
  rewrite Nat.add_0_r. f_equal. rewrite <- IH. f_equal.
  apply imap_ext. intros i x _. simpl. f_equal. lia.
Qed.

Lemma map_name_imap {X : Type} (base : nat) (g : string → X) (l : list string) :
  map (fun e : nat * (string * X) => e.2.1)
      (imap (fun i name => (base + i, (name, g name))) l) = l.
Proof.
  revert base. induction l as [| n l IH]; intros base; simpl; [reflexivity |].
  f_equal. rewrite <- (IH (S base)) at 2. f_equal.
  apply imap_ext. intros i x _. simpl. f_equal. lia.
Qed.

Lemma imap_entries_Forall {X : Type} (P : nat * (string * X) → Prop)
      (base : nat) (g : string → X) (l : list string) :
  (∀ i name, P (base + i, (name, g name))) →
  Forall P (imap (fun i name => (base + i, (name, g name))) l).
Proof.
  intros HP. apply Forall_forall. intros e He.
  apply list_elem_of_lookup in He as [i Hi].
  rewrite list_lookup_imap in Hi.
  destruct (l !! i) as [n |]; simpl in Hi; [| discriminate].
  injection Hi as <-. apply HP.
Qed.

(** The registry and the handles as [forward] finds them after
    [register_hooks]. *)
Lemma registered_state r :
  let r2 := register_hooks (HookedModel.set_step A (step r + 1) r) in
  forward_hooks (model r2)
  = forward_hooks (model r)
    ++ imap (fun i name => (next_handle (model r) + i, (name, hook_for r name))) (captured r)
  ∧ hooks r2 = hooks r ++ seq (next_handle (model r)) (length (captured r))
  ∧ next_handle (model r2) = next_handle (model r) + length (captured r)
  ∧ named_modules (model r2) = named_modules (model r)
  ∧ activations r2 = activations r
  ∧ step r2 = step r + 1
  ∧ activations_to_cache r2 = activations_to_cache r
  ∧ hook_fn r2 = hook_fn r
  ∧ policy r2 = policy r.
Proof.
  unfold register_hooks. rewrite register_loop_entries. simpl.
  rewrite (map_fst_imap_ids (next_handle (model r))), length_imap.
  unfold captured. repeat split; reflexivity.
Qed.

(** ** Hooks and keys *)

Lemma caching_hook_other_key (n name module_name : string) t r :
  n ≠ name →
  activations (run_hook (CachingHook n) module_name t r).2 !! name
  = activations r !! name.
Proof.
  intros Hne. unfold run_hook, base_caching_hook, whisper_caching_hook, del_activation.
  destruct (policy r); simpl.
  - by rewrite lookup_insert_ne.
  - destruct (contains "decoder" n && (1 <? seq_len t)).
    + destruct (activations r !! n); simpl; [| reflexivity].
      by rewrite lookup_delete_ne.
    + destruct (activations r !! n) as [acc |].
      * destruct (cat_seq acc t); simpl; [| reflexivity]. by rewrite lookup_insert_ne.
      * simpl. by rewrite lookup_insert_ne.
Qed.

Lemma fire_other_key (registered : list (nat * (string * hook A))) ev r (name : string) :
  Forall (fun e => ∀ n, e.2.2 = CachingHook n → n = e.2.1) registered →
  ev.1 ≠ name →
  activations (fire registered ev r).2 !! name = activations r !! name.
Proof.
  intros Hwired Hne. revert r.
  induction Hwired as [| [id [m h]] rest Hown _ IH]; intros r; simpl; [reflexivity |].
  destruct (String.eqb m ev.1) eqn:Hm; [| apply IH].
  apply String.eqb_eq in Hm. simpl in Hown.
  assert (activations (run_hook h ev.1 ev.2 r).2 !! name = activations r !! name) as Hstep.
  { destruct h as [n | f].
    - apply caching_hook_other_key. rewrite (Hown n eq_refl). congruence.
    - simpl. by destruct (f ev.1 ev.2). }
  destruct (run_hook h ev.1 ev.2 r) as [[u | e] r1]; simpl in *; [| exact Hstep].
  by rewrite IH.
Qed.

Lemma run_model_app (t1 t2 : list (event A)) r :
  run_model (t1 ++ t2) r
  = match run_model t1 r with
    | (Ok _, r') => run_model t2 r'
    | (Raise e, r') => (Raise e, r')
    end.
Proof.
  revert r. induction t1 as [| ev t1 IH]; intros r; simpl; [reflexivity |].
  destruct (fire (forward_hooks (model r)) ev r) as [[u | e] r1]; [apply IH | reflexivity].
Qed.

Lemma run_model_other_key (trace : list (event A)) r (name : string) :
  well_wired (model r) →
  (∀ ev, In ev trace → ev.1 ≠ name) →
  activations (run_model trace r).2 !! name = activations r !! name.
Proof.
  revert r. induction trace as [| ev rest IH]; intros r Hwired Hnot; simpl; [reflexivity |].
  pose proof (fire_other_key (forward_hooks (model r)) ev r name Hwired) as Hkey.
  pose proof (fire_wiring (forward_hooks (model r)) ev r) as [Hm _].
  destruct (fire (forward_hooks (model r)) ev r) as [[u | e] r1]; simpl in *.
  - rewrite IH.
    + apply Hkey, Hnot. tauto.
    + unfold well_wired. by rewrite Hm.
    + intros ev' Hev'. apply Hnot. tauto.
  - apply Hkey, Hnot. tauto.
Qed.

(** ** A registry of own caching hooks, one per name *)

Lemma fire_unregistered registered ev r :
  ¬ In ev.1 (names_of registered) → fire registered ev r = (Ok tt, r).
Proof.
  revert r. induction registered as [| [id [m h]] rest IH]; intros r Hnot; simpl;
    [reflexivity |].
  destruct (String.eqb m ev.1) eqn:Hm.
  - apply String.eqb_eq in Hm. exfalso. apply Hnot. simpl. tauto.
  - apply IH. intros Hin. apply Hnot. simpl. tauto.
Qed.

Lemma fire_base registered ev r :
  policy r = BaseCaching →
  own_caching registered →
  In ev.1 (names_of registered) →
  fire registered ev r = (Ok tt, set_activations (<[ev.1 := ev.2]> (activations r)) r).
Proof.
  intros Hpol Hown. revert r Hpol.
  induction Hown as [| [id [m h]] rest Hh _ IH]; intros r Hpol Hin; simpl in *; [tauto |].
  subst h. destruct (String.eqb m ev.1) eqn:Hm.
  - apply String.eqb_eq in Hm. subst m. unfold run_hook. rewrite Hpol. simpl.
    destruct (decide (ev.1 ∈ names_of rest)) as [Hrest | Hrest].
    + apply list_elem_of_In in Hrest. rewrite IH by done. simpl.
      by rewrite insert_insert_eq.
    + rewrite fire_unregistered; [reflexivity |].
      intros Hin'. by apply Hrest, list_elem_of_In.
  - apply String.eqb_neq in Hm. apply IH; [done |]. destruct Hin; [congruence | done].
Qed.

Lemma fire_whisper registered ev r :
  policy r = WhisperCaching →
  own_caching registered →
  NoDup (names_of registered) →
  In ev.1 (names_of registered) →
  fire registered ev r = whisper_caching_hook ev.1 ev.2 r.
Proof.
  intros Hpol Hown. revert r Hpol.
  induction Hown as [| [id [m h]] rest Hh _ IH]; intros r Hpol Hnodup Hin; simpl in *;
    [tauto |].
  subst h. apply NoDup_cons in Hnodup as [Hfresh Hnodup].
  destruct (String.eqb m ev.1) eqn:Hm.
  - apply String.eqb_eq in Hm. subst m. unfold run_hook. rewrite Hpol.
    destruct (whisper_caching_hook ev.1 ev.2 r) as [[[] | e] r1]; [| reflexivity].
    apply fire_unregistered. intros Hin'. apply Hfresh. by apply list_elem_of_In.
  - apply String.eqb_neq in Hm. apply IH; try done. destruct Hin; [congruence | done].
Qed.

End RecorderMoreFacts.

Section RecorderMoreTheorems.
Import RecorderMore.
Context {A : Type}.
Implicit Types (r : recorder A) (t : tensor A) (ev : event A).

Lemma forward_unfold {Out : Type} (x : list (event A) * Out) r :
  forward x r
  = match run_model x.1 (register_hooks (HookedModel.set_step A (step r + 1) r)) with
    | (Ok _, r3) => (Ok x.2, remove_hooks r3)
    | (Raise e, r3) => (Raise e, r3)
    end.
Proof.
  unfold forward, custom_forward.
  by destruct (run_model x.1 _) as [[u | e] r3].
Qed.

Lemma captured_NoDup r :
  NoDup (named_modules (model r)) → NoDup (captured r).
Proof. apply NoDup_filter. Qed.

Lemma registry_own_caching r :
  hook_fn r = None →
  own_caching (imap (fun i name => (next_handle (model r) + i, (name, hook_for r name)))
                    (captured r)).
Proof.
  intros Hnone. apply imap_entries_Forall. intros i name. simpl.
  unfold hook_for. by rewrite Hnone.
Qed.

End RecorderMoreTheorems.

(** ** Properties *)

(** X1.  [register_hooks] puts one hook on every module of the capture
    set, in the order of [named_modules], under fresh consecutive handle
    ids which it appends to the recorder's handles; the hook is the
    caller's [hook_fn] when one was given and the caching closure of the
    module's own name otherwise. *)
Theorem register_hooks_registers_captured {A : Type} (r : recorder A) :
  forward_hooks (model (register_hooks r))
  = forward_hooks (model r)
    ++ imap (fun i name => (next_handle (model r) + i, (name, RecorderMore.hook_for r name)))
            (RecorderMore.captured r)
  ∧ hooks (register_hooks r)
    = hooks r ++ seq (next_handle (model r)) (length (RecorderMore.captured r))
  ∧ next_handle (model (register_hooks r))
    = next_handle (model r) + length (RecorderMore.captured r)
  ∧ named_modules (model (register_hooks r)) = named_modules (model r)
  ∧ activations (register_hooks r) = activations r.
Proof.
  unfold register_hooks. rewrite register_loop_entries. simpl.
  rewrite (map_fst_imap_ids (next_handle (model r))), length_imap.
  unfold RecorderMore.captured. repeat split; reflexivity.
Qed.

(** X2.  However it ends, [forward] counts the call in [step] and leaves
    the capture set, the hook override, the caching policy and the
    module names as they were. *)
Theorem forward_counts_call_keeps_configuration
    {A Out : Type} (r : recorder A) (x : list (event A) * Out) :
  step (forward x r).2 = step r + 1
  ∧ activations_to_cache (forward x r).2 = activations_to_cache r
  ∧ hook_fn (forward x r).2 = hook_fn r
  ∧ policy (forward x r).2 = policy r
  ∧ named_modules (model (forward x r).2) = named_modules (model r).
Proof.
  rewrite forward_unfold.
  destruct (registered_state r) as (_ & _ & _ & Hn & _ & Hs & Hc & Hf & Hp).
  set (r2 := register_hooks _) in *.
  pose proof (run_model_only_activations x.1 r2) as Hrun.
  destruct (run_model x.1 r2) as [[u | e] r3]; simpl in *; rewrite Hrun; simpl.
  - destruct (remove_handles_spec (model r2) (hooks r2)) as [_ _].
    repeat split; try done.
    clear Hrun. generalize (hooks r2). intros hs.
    revert Hn. generalize (model r2). intros m Hm. rewrite <- Hm.
    clear. revert m. induction hs as [| h hs IH]; intros m; simpl; [reflexivity |].
    by rewrite IH.
  - repeat split; done.
Qed.

(** X3.  When a hook raises, [forward] stops there: the hooks it
    registered stay on the model and their handles stay in the
    recorder. *)
Theorem forward_failure_leaves_hooks
    {A Out : Type} (r r' : recorder A) (x : list (event A) * Out) (e : exn) :
  forward x r = (Raise e, r') →
  hooks r' = hooks r ++ seq (next_handle (model r)) (length (RecorderMore.captured r))
  ∧ forward_hooks (model r')
    = forward_hooks (model r)
      ++ imap (fun i name => (next_handle (model r) + i,
                              (name, RecorderMore.hook_for r name)))
              (RecorderMore.captured r).
Proof.
  rewrite forward_unfold.
  destruct (registered_state r) as (Hf & Hh & _).
  set (r2 := register_hooks _) in *.
  pose proof (run_model_wiring x.1 r2) as [Hm3 Hh3].
  destruct (run_model x.1 r2) as [[u | e'] r3]; simpl in *; [discriminate |].
  intros [= _ <-]. by rewrite Hh3, Hm3, Hh, Hf.
Qed.

Lemma forward_failure_leaves_hooks_witness :
  hooks (forward ([(Sample.dec_mlp, Sample.priming)], tt) Sample.cache).2 = [0; 1].
Proof.
  destruct (forward_failure_leaves_hooks Sample.cache
              (forward ([(Sample.dec_mlp, Sample.priming)], tt) Sample.cache).2
              ([(Sample.dec_mlp, Sample.priming)], tt) (KeyError Sample.dec_mlp))
    as [Hh _].
  - vm_compute. reflexivity.
  - rewrite Hh. vm_compute. reflexivity.
Defined.

(** X4.  [remove_hooks] takes off the model exactly the hooks whose
    handle the recorder holds, keeps the others in order, empties the
    list of handles, and changes nothing when called again. *)
Theorem remove_hooks_detaches {A : Type} (r : recorder A) :
  forward_hooks (model (remove_hooks r))
  = filter (fun e => e.1 ∉ hooks r) (forward_hooks (model r))
  ∧ hooks (remove_hooks r) = []
  ∧ activations (remove_hooks r) = activations r
  ∧ remove_hooks (remove_hooks r) = remove_hooks r.
Proof.
  unfold remove_hooks at 1 2 3. simpl.
  destruct (remove_handles_spec (model r) (hooks r)) as [-> _].
  repeat split.
Qed.

(** X6.  On a model whose caching closures each sit on the module they
    name, [forward] leaves the entry of every submodule that the pass does
    not invoke as it found it, stale or absent, however the pass ends. *)
Theorem forward_leaves_uninvoked_entries
    {A Out : Type} (r : recorder A) (x : list (event A) * Out) (name : string) :
  RecorderMore.well_wired (model r) →
  (∀ ev, In ev x.1 → ev.1 ≠ name) →
  activations (forward x r).2 !! name = activations r !! name.
Proof.
  intros Hwired Hnot. rewrite forward_unfold.
  destruct (registered_state r) as (Hreg & _ & _ & _ & Hacts & _).
  set (r2 := register_hooks _) in *.
  assert (RecorderMore.well_wired (model r2)) as Hwired2.
  { unfold RecorderMore.well_wired. rewrite Hreg. apply Forall_app. split; [exact Hwired |].
    apply imap_entries_Forall. intros i n k. simpl. unfold RecorderMore.hook_for.
    destruct (hook_fn r); [discriminate | congruence]. }
  pose proof (run_model_other_key x.1 r2 name Hwired2 Hnot) as Hrun.
  destruct (run_model x.1 r2) as [[u | e] r3]; simpl in *; congruence.
Qed.

Lemma forward_leaves_uninvoked_entries_witness :
  activations
    (forward ([(Sample.dec_mlp, Sample.token 5)], tt)
       (forward ([(Sample.enc_mlp, Sample.token 1)], tt) Sample.cache).2).2
    !! Sample.enc_mlp
  = Some (mkTensor 1 1 2 [[[1; 2]]]%Z).
Proof.
  rewrite (forward_leaves_uninvoked_entries
             (forward ([(Sample.enc_mlp, Sample.token 1)], tt) Sample.cache).2
             ([(Sample.dec_mlp, Sample.token 5)], tt) Sample.enc_mlp).
  - vm_compute. reflexivity.
  - vm_compute. constructor.
  - intros ev [<- | []]. discriminate.
Defined.

Section AssemblyFacts.
Import RecorderMore.
Context {A : Type}.
Implicit Types (r : recorder A) (t o : tensor A) (ev : event A).

Lemma outputs_of_cons (name : string) ev (trace : list (event A)) :
  outputs_of name (ev :: trace)
  = if decide (ev.1 = name) then ev.2 :: outputs_of name trace else outputs_of name trace.
Proof.
  unfold outputs_of. rewrite filter_cons. by destruct (decide (ev.1 = name)).
Qed.

Lemma outputs_of_app (name : string) (t1 t2 : list (event A)) :
  outputs_of name (t1 ++ t2) = outputs_of name t1 ++ outputs_of name t2.
Proof. unfold outputs_of. by rewrite filter_app, map_app. Qed.

Lemma nth_seq_id {X : Type} (d : X) (l : list X) :
  map (fun e => nth e l d) (seq 0 (length l)) = l.
Proof.
  induction l as [| a l IH]; simpl; [reflexivity |].
  f_equal. rewrite <- seq_shift, map_map. exact IH.
Qed.

Lemma zip_with_app_maps {X : Type} (f g : nat → list X) (idx : list nat) :
  zip_with app (map f idx) (map g idx) = map (fun e => f e ++ g e) idx.
Proof. induction idx as [| i idx IH]; simpl; [reflexivity |]. by rewrite IH. Qed.

Lemma assembled_snoc (captures : list (tensor A)) o (e : nat) :
  assembled (captures ++ [o]) e = assembled captures e ++ nth e (cells o) [].
Proof.
  unfold assembled. rewrite map_app, concat_app. simpl. by rewrite app_nil_r.
Qed.

Lemma sum_list_snoc (l : list nat) (n : nat) : sum_list (l ++ [n]) = sum_list l + n.
Proof. induction l as [| a l IH]; simpl; lia. Qed.

Lemma narrow_small o :
  well_shaped o → width o ≤ 50 →
  narrow 50 o = mkTensor (bsz o) (seq_len o) (width o) (cells o).
Proof.
  intros [_ Hrows] Hw. unfold narrow. f_equal; [lia |].
  rewrite <- (map_id (cells o)) at 2. apply map_ext_Forall.
  eapply Forall_impl; [exact Hrows |]. intros ex [_ Hex]. simpl in *.
  rewrite <- (map_id ex) at 2. apply map_ext_Forall.
  eapply Forall_impl; [exact Hex |]. intros v Hv. simpl in *.
  apply take_ge. lia.
Qed.

Lemma assembled_entry_single o :
  well_shaped o → width o ≤ 50 → assembled_entry [o] = Some (narrow 50 o).
Proof.
  intros Hshape Hw. rewrite narrow_small by done.
  unfold assembled_entry. simpl. rewrite Nat.add_0_r. do 2 f_equal.
  destruct Hshape as [<- _].
  rewrite <- (nth_seq_id [] (cells o)) at 2. apply map_ext.
  intros e. unfold assembled. simpl. by rewrite app_nil_r.
Qed.

Lemma assemblable_prefix (name : string) (l1 l2 : list (tensor A)) :
  assemblable name (l1 ++ l2) → assemblable name l1.
Proof.
  destruct l1 as [| first l1]; [done |]. simpl.
  intros H. apply Forall_cons in H as [H1 H]. apply Forall_app in H as [H _].
  by apply Forall_cons.
Qed.

Lemma assemblable_last (name : string) (l : list (tensor A)) o :
  assemblable name (l ++ [o]) →
  well_shaped o ∧ width o ≤ 50 ∧ contains "decoder" name && (1 <? seq_len o) = false.
Proof.
  intros H.
  assert (Forall (fun o' => well_shaped o' ∧ width o' ≤ 50
                            ∧ contains "decoder" name && (1 <? seq_len o') = false)
                 (l ++ [o])) as Hall.
  { destruct l as [| first l]; simpl in *;
      (eapply Forall_impl; [exact H |]); simpl; tauto. }
  apply Forall_app in Hall as [_ Hall]. rewrite Forall_singleton in Hall. exact Hall.
Qed.

Lemma assembled_entry_snoc (name : string) (captures : list (tensor A)) o acc :
  assembled_entry captures = Some acc →
  assemblable name (captures ++ [o]) →
  ∃ joined, cat_seq acc o = Ok joined ∧ assembled_entry (captures ++ [o]) = Some joined.
Proof.
  destruct captures as [| first rest]; [discriminate |].
  intros [= <-] Hok. simpl in Hok.
  apply Forall_cons in Hok as [_ Hok]. apply Forall_app in Hok as [_ Hok].
  rewrite Forall_singleton in Hok. destruct Hok as (Hb & Hw & [Hlen _] & _).
  unfold cat_seq. simpl. rewrite Hb, Hw, !Nat.eqb_refl. simpl.
  eexists. split; [reflexivity |]. do 2 f_equal.
  - rewrite map_app. simpl. rewrite sum_list_snoc. lia.
  - rewrite <- (nth_seq_id [] (cells o)) at 1. rewrite Hlen, Hb, zip_with_app_maps.
    apply map_ext. intros e. exact (assembled_snoc (first :: rest) o e).
Qed.

(** A run of the model under the base policy. *)
Lemma run_model_base (trace : list (event A)) r :
  policy r = BaseCaching →
  own_caching (forward_hooks (model r)) →
  (run_model trace r).1 = Ok tt
  ∧ ∀ name : string,
      activations (run_model trace r).2 !! name
      = if decide (name ∈ names_of (forward_hooks (model r)))
        then match last (outputs_of name trace) with
             | Some o => Some o
             | None => activations r !! name
             end
        else activations r !! name.
Proof.
  revert r. induction trace as [| ev rest IH]; intros r Hpol Hown; simpl.
  - split; [reflexivity |]. intros name. by destruct (decide _).
  - destruct (decide (ev.1 ∈ names_of (forward_hooks (model r)))) as [Hreg | Hreg].
    + rewrite (fire_base _ ev r Hpol Hown (proj1 (list_elem_of_In _ _) Hreg)).
      destruct (IH (set_activations (<[ev.1 := ev.2]> (activations r)) r) Hpol Hown)
        as [Hok Hlook].
      destruct (run_model rest _) as [[u | e] r1]; simpl in *; [| discriminate].
      split; [by destruct u |]. intros name. rewrite Hlook, outputs_of_cons.
      destruct (decide (name ∈ _)) as [Hn | Hn].
      * destruct (decide (ev.1 = name)) as [<- | Hne].
        -- rewrite last_cons, lookup_insert_eq. by destruct (last _).
        -- by rewrite lookup_insert_ne.
      * rewrite lookup_insert_ne; [reflexivity |]. congruence.
    + rewrite (fire_unregistered _ ev r (fun H => Hreg (proj2 (list_elem_of_In _ _) H))).
      destruct (IH r Hpol Hown) as [Hok Hlook].
      split; [exact Hok |]. intros name. rewrite Hlook, outputs_of_cons.
      destruct (decide (name ∈ _)) as [Hn | Hn]; [| reflexivity].
      destruct (decide (ev.1 = name)) as [<- | Hne]; [contradiction | reflexivity].
Qed.

(** A run of the model under the Whisper policy, on captures it can
    assemble after those already assembled, [done name] for each module. *)
Lemma run_model_whisper (trace : list (event A)) r (done : string → list (tensor A)) :
  policy r = WhisperCaching →
  own_caching (forward_hooks (model r)) →
  NoDup (names_of (forward_hooks (model r))) →
  (∀ name, name ∈ names_of (forward_hooks (model r)) →
           activations r !! name = assembled_entry (done name)
           ∧ assemblable name (done name ++ outputs_of name trace)) →
  (run_model trace r).1 = Ok tt
  ∧ ∀ name, name ∈ names_of (forward_hooks (model r)) →
            activations (run_model trace r).2 !! name
            = assembled_entry (done name ++ outputs_of name trace).
Proof.
  intros Hpol Hown Hnodup.
  induction trace as [| ev trace IH] using rev_ind; intros Hgood.
  - simpl. split; [reflexivity |]. intros name Hname.
    change (outputs_of name []) with (@nil (tensor A)). rewrite app_nil_r.
    by destruct (Hgood name Hname).
  - destruct IH as [Hok Hlook].
    { intros name Hname. destruct (Hgood name Hname) as [Hnone Hasm].
      split; [exact Hnone |]. rewrite outputs_of_app, app_assoc in Hasm.
      by apply assemblable_prefix in Hasm. }
    rewrite run_model_app.
    pose proof (run_model_wiring trace r) as [Hm _].
    pose proof (run_model_only_activations trace r) as Honly.
    destruct (run_model trace r) as [[u | e] r1]; simpl in *; [| discriminate].
    rewrite Hm.
    assert (policy r1 = WhisperCaching) as Hpol1 by (rewrite Honly; exact Hpol).
    assert (∀ name, name ≠ ev.1 →
              outputs_of name (trace ++ [ev]) = outputs_of name trace) as Hother.
    { intros name Hne. rewrite outputs_of_app, (outputs_of_cons name ev []).
      destruct (decide (ev.1 = name)); [congruence |]. apply app_nil_r. }
    assert (outputs_of ev.1 (trace ++ [ev]) = outputs_of ev.1 trace ++ [ev.2]) as Hthis.
    { rewrite outputs_of_app, (outputs_of_cons ev.1 ev []).
      by destruct (decide (ev.1 = ev.1)). }
    destruct (decide (ev.1 ∈ names_of (forward_hooks (model r)))) as [Hreg | Hreg].
    + rewrite (fire_whisper _ ev r1 Hpol1 Hown Hnodup (proj1 (list_elem_of_In _ _) Hreg)).
      destruct (Hgood ev.1 Hreg) as [_ Hasm].
      rewrite Hthis, app_assoc in Hasm.
      destruct (assemblable_last _ _ _ Hasm) as (Hshape & Hw & Hkeep).
      specialize (Hlook ev.1 Hreg) as Hentry.
      destruct (assembled_entry (done ev.1 ++ outputs_of ev.1 trace)) as [acc |] eqn:Hacc.
      * destruct (assembled_entry_snoc ev.1 _ ev.2 acc Hacc Hasm) as (joined & Hcat & Hnew).
        unfold whisper_caching_hook. rewrite Hkeep, Hentry, Hcat. simpl.
        split; [reflexivity |]. intros name Hname.
        destruct (decide (name = ev.1)) as [-> | Hne].
        -- by rewrite lookup_insert_eq, Hthis, app_assoc.
        -- rewrite lookup_insert_ne by congruence. rewrite Hother by done. by apply Hlook.
      * rewrite (whisper_hook_first ev.1 ev.2 r1 Hkeep Hentry). simpl.
        split; [reflexivity |]. intros name Hname.
        destruct (decide (name = ev.1)) as [-> | Hne].
        -- rewrite lookup_insert_eq, Hthis, app_assoc.
           destruct (done ev.1 ++ outputs_of ev.1 trace) as [| first rest];
             [| discriminate].
           simpl. symmetry. by apply assembled_entry_single.
        -- rewrite lookup_insert_ne by congruence. rewrite Hother by done. by apply Hlook.
    + rewrite (fire_unregistered _ ev r1 (fun H => Hreg (proj2 (list_elem_of_In _ _) H))).
      simpl. split; [reflexivity |]. intros name Hname.
      rewrite Hother; [by apply Hlook |]. intros ->. contradiction.
Qed.

End AssemblyFacts.

(** X7.  Under the base caching policy, with no hook override and no
    hook on the model beforehand, [forward] always returns, and for every
    module of the capture set the mapping holds the output of its last
    invocation in the pass (earlier outputs are overwritten); every other
    entry, and the entry of a captured module the pass did not invoke, is
    what it was before the call. *)
Theorem base_forward_keeps_last_output
    {A Out : Type} (r : recorder A) (x : list (event A) * Out) :
  policy r = BaseCaching →
  hook_fn r = None →
  forward_hooks (model r) = [] →
  (forward x r).1 = Ok x.2
  ∧ ∀ name : string,
      activations (forward x r).2 !! name
      = if decide (name ∈ RecorderMore.captured r)
        then match last (RecorderMore.outputs_of name x.1) with
             | Some o => Some o
             | None => activations r !! name
             end
        else activations r !! name.
Proof.
  intros Hpol Hnone Hclean. rewrite forward_unfold.
  destruct (registered_state r) as (Hreg & _ & _ & _ & Hacts & _ & _ & _ & Hpol2).
  set (r2 := register_hooks _) in *. rewrite Hclean in Hreg. simpl in Hreg.
  destruct (run_model_base x.1 r2) as [Hok Hlook].
  { by rewrite Hpol2. }
  { rewrite Hreg. by apply registry_own_caching. }
  rewrite Hreg in Hlook. unfold RecorderMore.names_of in Hlook.
  rewrite map_name_imap in Hlook.
  destruct (run_model x.1 r2) as [[u | e] r3]; simpl in *; [| discriminate].
  split; [reflexivity |]. intros name. rewrite Hlook, Hacts. reflexivity.
Qed.

Lemma base_forward_keeps_last_output_witness :
  activations
    (forward ([(Sample.dec_mlp, Sample.token 1); (Sample.dec_mlp, Sample.token 3)], tt)
       Sample2.base_cache).2 !! Sample.dec_mlp
  = Some (Sample.token 3).
Proof.
  destruct (base_forward_keeps_last_output Sample2.base_cache
              ([(Sample.dec_mlp, Sample.token 1); (Sample.dec_mlp, Sample.token 3)], tt))
    as [_ Hlook]; [reflexivity | reflexivity | reflexivity |].
  rewrite Hlook. vm_compute. reflexivity.
Defined.

(** X8.  Under the Whisper caching policy, with no hook override, no
    hook on the model beforehand and distinct module names: when the entry
    of every module of the capture set is what the policy assembled from
    earlier captures (none, after a reset) and the module's outputs in the
    pass can be assembled after them (well-shaped, at most 50 channels
    wide, of one batch size and width, and of at most one position on a
    decoder-side module), [forward] returns, and the entry of each such
    module is the concatenation along the sequence axis of the earlier
    captures and of its outputs in the pass, in invocation order. *)
Theorem whisper_forward_assembles_in_order
    {A Out : Type} (r : recorder A) (x : list (event A) * Out)
    (earlier : string → list (tensor A)) :
  policy r = WhisperCaching →
  hook_fn r = None →
  forward_hooks (model r) = [] →
  NoDup (named_modules (model r)) →
  (∀ name, name ∈ RecorderMore.captured r →
           activations r !! name = RecorderMore.assembled_entry (earlier name)
           ∧ RecorderMore.assemblable name
               (earlier name ++ RecorderMore.outputs_of name x.1)) →
  (forward x r).1 = Ok x.2
  ∧ ∀ name, name ∈ RecorderMore.captured r →
            activations (forward x r).2 !! name
            = RecorderMore.assembled_entry
                (earlier name ++ RecorderMore.outputs_of name x.1).
Proof.
  intros Hpol Hnone Hclean Hnodup Hgood. rewrite forward_unfold.
  destruct (registered_state r) as (Hreg & _ & _ & _ & Hacts & _ & _ & _ & Hpol2).
  set (r2 := register_hooks _) in *. rewrite Hclean in Hreg. simpl in Hreg.
  assert (RecorderMore.names_of (forward_hooks (model r2)) = RecorderMore.captured r)
    as Hnames.
  { rewrite Hreg. unfold RecorderMore.names_of. apply map_name_imap. }
  destruct (run_model_whisper x.1 r2 earlier) as [Hok Hlook].
  { by rewrite Hpol2. }
  { rewrite Hreg. by apply registry_own_caching. }
  { rewrite Hnames. by apply captured_NoDup. }
  { rewrite Hnames, Hacts. exact Hgood. }
  rewrite Hnames in Hlook.
  destruct (run_model x.1 r2) as [[u | e] r3]; simpl in *; [| discriminate].
  split; [reflexivity | exact Hlook].
Qed.

Lemma whisper_forward_assembles_in_order_witness :
  activations
    (forward ([(Sample.dec_mlp, Sample.token 1);
               (Sample.enc_mlp, Sample.token 9);
               (Sample.dec_mlp, Sample.token 3);
               (Sample.dec_mlp, Sample.token 5)], tt) Sample.cache).2 !! Sample.dec_mlp
  = Some (mkTensor 1 3 2 [[[1; 2]; [3; 4]; [5; 6]]]%Z).
Proof.
  destruct (whisper_forward_assembles_in_order Sample.cache
              ([(Sample.dec_mlp, Sample.token 1);
                (Sample.enc_mlp, Sample.token 9);
                (Sample.dec_mlp, Sample.token 3);
                (Sample.dec_mlp, Sample.token 5)], tt) (fun _ => []))
    as [_ Hlook]; [reflexivity | reflexivity | reflexivity | | |].
  - apply (bool_decide_unpack _). vm_compute. exact I.
  - intros name Hname. vm_compute in Hname.
    apply list_elem_of_In in Hname. destruct Hname as [<- | [<- | []]].
    + split; [reflexivity |]. vm_compute. repeat constructor.
    + split; [reflexivity |]. vm_compute. repeat constructor.
  - rewrite Hlook; [reflexivity |]. apply (bool_decide_unpack _). vm_compute. exact I.
Defined.

(** X10.  When the sort only reorders and no pattern raises on a module
    name, construction succeeds with a recorder that has made no pass,
    holds no activation and no handle, and whose capture set consists of
    exactly the module names that some pattern matches. *)
Theorem init_capture_set
    {A : Type} (regex_match : string → string → result bool)
    (natsorted : list string → list string)
    (cls : caching_policy) (m : torch_module A)
    (hook_fn : option (custom_hook A)) (activation_regex : list string) :
  (∀ l, natsorted l ≡ₚ l) →
  (∀ name p, In name (named_modules m) → In p activation_regex →
             ∃ b, regex_match p name = Ok b) →
  ∃ r,
    init regex_match natsorted cls (Some m) hook_fn activation_regex = Ok r
    ∧ model r = m ∧ step r = 0 ∧ activations r = ∅ ∧ hooks r = []
    ∧ ∀ name, In name (activations_to_cache r)
              ↔ In name (named_modules m)
                ∧ ∃ p, In p activation_regex ∧ regex_match p name = Ok true.
Proof.
  intros Hperm Htotal. unfold init.
  assert (∀ name ps, (∀ p, In p ps → ∃ b, regex_match p name = Ok b) →
            ∃ b, any_match regex_match ps name = Ok b
                 ∧ (b = true ↔ ∃ p, In p ps ∧ regex_match p name = Ok true)) as Hany.
  { intros name. induction ps as [| p ps IH]; intros Hps; simpl.
    - exists false. split; [reflexivity |]. split; [discriminate | intros (p & [] & _)].
    - destruct (Hps p) as [b Hb]; [simpl; tauto |]. rewrite Hb. simpl.
      destruct b.
      + exists true. split; [reflexivity |]. split; [| reflexivity].
        intros _. exists p. simpl. tauto.
      + destruct IH as (b & Hb' & Hiff); [intros q Hq; apply Hps; simpl; tauto |].
        exists b. split; [exact Hb' |]. rewrite Hiff. split.
        * intros (q & Hq & Hm). exists q. simpl. tauto.
        * intros (q & [<- | Hq] & Hm); [congruence |]. exists q. tauto. }
  assert (∀ names, (∀ name, In name names → In name (named_modules m)) →
            ∃ l, matched_names regex_match names activation_regex = Ok l
                 ∧ ∀ name, In name l
                           ↔ In name names
                             ∧ ∃ p, In p activation_regex ∧ regex_match p name = Ok true)
    as Hmatched.
  { induction names as [| n names IH]; intros Hsub; simpl.
    - exists []. split; [reflexivity |]. simpl. tauto.
    - destruct (Hany n activation_regex) as (b & Hb & Hiff).
      { intros p Hp. apply Htotal; [apply Hsub; simpl; tauto | exact Hp]. }
      destruct IH as (l & Hl & Hin); [intros k Hk; apply Hsub; simpl; tauto |].
      rewrite Hb, Hl. simpl. eexists. split; [reflexivity |].
      intros name. destruct b; simpl; rewrite Hin.
      + split.
        * intros [<- | [Hk Hp]]; [split; [tauto | by apply Hiff] | tauto].
        * intros [[<- | Hk] Hp]; tauto.
      + split; [tauto |]. intros [[<- | Hk] Hp]; [| tauto].
        apply Hiff in Hp. discriminate. }
  destruct (Hmatched (named_modules m)) as (l & Hl & Hin); [tauto |].
  rewrite Hl. simpl. eexists. split; [reflexivity |]. simpl.
  do 4 (split; [reflexivity |]).
  intros name. rewrite <- Hin. split; intros Hname.
  - apply list_elem_of_In. apply list_elem_of_In in Hname. by rewrite <- (Hperm l).
  - apply list_elem_of_In. apply list_elem_of_In in Hname. by rewrite (Hperm l).
Qed.

(** X9.  Under the Whisper caching policy, with no hook override, no
    hook on the model beforehand and distinct module names, a decoder-side
    output of more than one position that arrives when its module already
    has an entry erases that entry: after the pass the module's entry is assembled from the
    outputs that came after it alone (none, if it came last), while the
    entries of the other modules are assembled from all of theirs. *)
Theorem whisper_priming_restarts_entry
    {A Out : Type} (r : recorder A) (before after : list (event A)) (out : Out)
    (name : string) (priming : tensor A) (earlier : string → list (tensor A)) :
  policy r = WhisperCaching →
  hook_fn r = None →
  forward_hooks (model r) = [] →
  NoDup (named_modules (model r)) →
  name ∈ RecorderMore.captured r →
  contains "decoder" name = true →
  1 < seq_len priming →
  earlier name ++ RecorderMore.outputs_of name before ≠ [] →
  RecorderMore.assemblable name (earlier name ++ RecorderMore.outputs_of name before) →
  RecorderMore.assemblable name (RecorderMore.outputs_of name after) →
  (∀ n, n ∈ RecorderMore.captured r →
        activations r !! n = RecorderMore.assembled_entry (earlier n)
        ∧ (n ≠ name →
           RecorderMore.assemblable n
             (earlier n ++ RecorderMore.outputs_of n (before ++ after)))) →
  (forward (before ++ (name, priming) :: after, out) r).1 = Ok out
  ∧ activations (forward (before ++ (name, priming) :: after, out) r).2 !! name
    = RecorderMore.assembled_entry (RecorderMore.outputs_of name after)
  ∧ ∀ n, n ∈ RecorderMore.captured r → n ≠ name →
         activations (forward (before ++ (name, priming) :: after, out) r).2 !! n
         = RecorderMore.assembled_entry
             (earlier n ++ RecorderMore.outputs_of n (before ++ after)).
Proof.
  intros Hpol Hnone Hclean Hnodup Hname Hdec Hlong Hsome Hpre Hpost Hgood.
  rewrite forward_unfold. simpl.
  destruct (registered_state r) as (Hreg & _ & _ & _ & Hacts & _ & _ & _ & Hpol2).
  set (r2 := register_hooks _) in *. rewrite Hclean in Hreg. simpl in Hreg.
  assert (RecorderMore.names_of (forward_hooks (model r2)) = RecorderMore.captured r)
    as Hnames.
  { rewrite Hreg. unfold RecorderMore.names_of. apply map_name_imap. }
  assert (RecorderMore.own_caching (forward_hooks (model r2))) as Hown
    by (rewrite Hreg; by apply registry_own_caching).
  assert (NoDup (RecorderMore.names_of (forward_hooks (model r2)))) as Hnd
    by (rewrite Hnames; by apply captured_NoDup).
  (* the events before the priming output *)
  destruct (run_model_whisper before r2 earlier) as [Hok1 Hlook1]; try done.
  { by rewrite Hpol2. }
  { rewrite Hnames, Hacts. intros n Hn. destruct (Hgood n Hn) as [He Hasm].
    split; [exact He |]. destruct (decide (n = name)) as [-> | Hne]; [exact Hpre |].
    specialize (Hasm Hne). rewrite outputs_of_app, app_assoc in Hasm.
    by apply assemblable_prefix in Hasm. }
  rewrite run_model_app.
  pose proof (run_model_wiring before r2) as [Hm3 _].
  pose proof (run_model_only_activations before r2) as Honly3.
  destruct (run_model before r2) as [[u | e] r3]; simpl in *; [| discriminate].
  assert (policy r3 = WhisperCaching) as Hpol3 by (rewrite Honly3; by rewrite <- Hpol2 in Hpol).
  (* the priming output *)
  rewrite Hm3.
  rewrite (fire_whisper _ (name, priming) r3 Hpol3 Hown Hnd)
    by (apply list_elem_of_In; simpl; by rewrite Hnames).
  simpl. rewrite (whisper_hook_priming name priming r3 Hdec Hlong).
  rewrite Hlook1 by (by rewrite Hnames).
  destruct (earlier name ++ RecorderMore.outputs_of name before) as [| first rest] eqn:Hprev;
    [done |].
  simpl.
  set (r4 := set_activations (delete name (activations r3)) r3).
  (* the events after it *)
  destruct (run_model_whisper after r4
              (fun n => if decide (n = name) then []
                        else earlier n ++ RecorderMore.outputs_of n before))
    as [Hok2 Hlook2].
  { exact Hpol3. }
  { simpl. by rewrite Hm3. }
  { simpl. by rewrite Hm3. }
  { simpl. rewrite Hm3. intros n Hn. destruct (decide (n = name)) as [-> | Hne].
    - rewrite lookup_delete_eq. split; [reflexivity | exact Hpost].
    - rewrite lookup_delete_ne by congruence. rewrite Hlook1 by exact Hn.
      split; [reflexivity |]. rewrite Hnames in Hn.
      destruct (Hgood n Hn) as [_ Hasm]. specialize (Hasm Hne).
      by rewrite outputs_of_app, app_assoc in Hasm. }
  simpl in Hlook2. rewrite Hm3 in Hlook2.
  destruct (run_model after r4) as [[u' | e] r5]; simpl in *; [| discriminate].
  split; [reflexivity |]. split.
  - rewrite Hlook2 by (by rewrite Hnames).
    by destruct (decide (name = name)).
  - intros n Hn Hne. rewrite Hlook2 by (by rewrite Hnames).
    destruct (decide (n = name)); [contradiction |].
    by rewrite outputs_of_app, app_assoc.
Qed.

Lemma whisper_priming_restarts_entry_witness :
  activations
    (forward ([(Sample.dec_mlp, Sample.token 1)]
              ++ (Sample.dec_mlp, Sample.priming)
                 :: [(Sample.dec_mlp, Sample.token 3); (Sample.dec_mlp, Sample.token 5)],
              tt) Sample.cache).2 !! Sample.dec_mlp
  = Some (mkTensor 1 2 2 [[[3; 4]; [5; 6]]]%Z).
Proof.
  destruct (whisper_priming_restarts_entry Sample.cache
              [(Sample.dec_mlp, Sample.token 1)]
              [(Sample.dec_mlp, Sample.token 3); (Sample.dec_mlp, Sample.token 5)]
              tt Sample.dec_mlp Sample.priming (fun _ => []))
    as (_ & Hlook & _).
  { reflexivity. }
  { reflexivity. }
  { reflexivity. }
  { apply (bool_decide_unpack _). vm_compute. exact I. }
  { apply (bool_decide_unpack _). vm_compute. exact I. }
  { reflexivity. }
  { vm_compute. lia. }
  { vm_compute. discriminate. }
  { vm_compute. repeat constructor. }
  { vm_compute. repeat constructor. }
  { intros n Hn. split; [reflexivity |]. intros Hne.
    vm_compute in Hn. apply list_elem_of_In in Hn.
    destruct Hn as [<- | [<- | []]]; [vm_compute; exact I | contradiction]. }
  etransitivity; [exact Hlook | reflexivity].
Defined.

(* ===================================================================== *)
(** * Further theorems: the L1 autoencoder                                *)
(* ===================================================================== *)

Section L1MoreFacts.
Import L1.
Local Open Scope R_scope.

Lemma encode_state (x : rtensor) (m : L1AutoEncoder) :
  (encode x m).2
  = set_decoder_weight (normalize_dim0 (n_dict_components m) (decoder_weight m)) m.
Proof. unfold encode. by destruct (_ =? _)%nat. Qed.

Lemma encode_result (x : rtensor) (m : L1AutoEncoder) :
  (encode x m).1
  = if (width x =? activation_size m)%nat
    then Ok (mkEncoded (mkTensor (bsz x) (seq_len x) (n_dict_components m)
                          (map (map (encode_vec (encode x m).2)) (cells x))))
    else Raise RuntimeError.
Proof. rewrite encode_state. unfold encode. simpl. by destruct (_ =? _)%nat. Qed.

(** What [forward] returns, when it returns. *)
Lemma forward_inv (x : rtensor) (return_mse : bool) (m : L1AutoEncoder) out extra :
  (forward x return_mse m).1 = Ok (out, extra) →
  ∃ c x_hat,
    (encode x m).1 = Ok (mkEncoded c)
    ∧ decoder c (encode x m).2 = Ok x_hat
    ∧ same_shape x_hat x = true
    ∧ out = mkForward x_hat (mkEncoded c) (norm1_dim2_mean c)
              (Scalar (Rmult (recon_alpha m)
                 <$> mean (zip_with (fun a b => (a - b) * (a - b))
                        (select_unmasked (map (fun t => Req_bool t (-1)) (flatten x))
                                         (flatten x_hat))
                        (select_unmasked (map (fun t => Req_bool t (-1)) (flatten x))
                                         (flatten x)))))
    ∧ extra = if return_mse
              then Some (mean (zip_with (fun a b => (a - b) * (a - b))
                                        (flatten x_hat) (flatten x)))
              else None.
Proof.
  rewrite encode_state. unfold forward, encode. simpl.
  destruct (width x =? activation_size m)%nat eqn:Hw; simpl; [| discriminate].
  unfold decoder. simpl. rewrite Nat.eqb_refl. simpl.
  unfold mse_loss, plain_mse.
  destruct (same_shape _ x) eqn:Hshape; simpl; [| discriminate].
  destruct return_mse; simpl; intros [= <- <-]; eexists _, _;
    (split; [reflexivity |]);
    (split; [unfold decoder; simpl; by rewrite Nat.eqb_refl |]);
    (split; [exact Hshape |]); split; reflexivity.
Qed.

(** What [forward] returns on an input of the expected width. *)
Lemma forward_ok (x : rtensor) (return_mse : bool) (m : L1AutoEncoder) :
  width x = activation_size m →
  ∃ out extra, (forward x return_mse m).1 = Ok (out, extra).
Proof.
  intros Hw. unfold forward, encode. simpl. rewrite Hw, Nat.eqb_refl. simpl.
  unfold decoder. simpl. rewrite Nat.eqb_refl. simpl.
  unfold mse_loss, plain_mse, same_shape. simpl. rewrite Hw, !Nat.eqb_refl. simpl.
  destruct return_mse; simpl; eauto.
Qed.

Lemma sum_nonneg (l : list R) : Forall (fun v => 0 <= v) l → 0 <= sum l.
Proof. induction 1 as [| a l Ha _ IH]; simpl; lra. Qed.

Lemma mean_nonneg (l : list R) (s : R) :
  Forall (fun v => 0 <= v) l → mean l = Some s → 0 <= s.
Proof.
  intros Hl. destruct l as [| a l]; [discriminate |]. intros [= <-].
  apply Rmult_le_pos; [exact (sum_nonneg (a :: l) Hl) |].
  left. apply Rinv_0_lt_compat. apply (lt_0_INR (S (length l))). lia.
Qed.

Lemma norm1_nonneg (v : list R) : 0 <= norm1 v.
Proof.
  apply sum_nonneg, Forall_forall. intros a Ha.
  apply list_elem_of_In, in_map_iff in Ha as (b & <- & _). apply Rabs_pos.
Qed.

Lemma squares_nonneg (l1 l2 : list R) :
  Forall (fun v => 0 <= v) (zip_with (fun a b => (a - b) * (a - b)) l1 l2).
Proof.
  revert l2. induction l1 as [| a l1 IH]; intros [| b l2]; simpl;
    try (by constructor).
  constructor; [exact (Rle_0_sqr (a - b)) | apply IH].
Qed.

Lemma Req_bool_true (a b : R) : Req_bool a b = true ↔ a = b.
Proof. unfold Req_bool. destruct (Req_dec_T a b); split; congruence. Qed.

Lemma select_unmasked_all (s : R) (l1 l2 : list R) :
  length l1 = length l2 →
  (∀ t, In t l2 → t ≠ s) →
  select_unmasked (map (fun t => Req_bool t s) l2) l1 = l1.
Proof.
  revert l2. induction l1 as [| a l1 IH]; intros [| b l2] Hlen Hno; simpl in *;
    try discriminate; [reflexivity |].
  unfold select_unmasked in *. simpl.
  assert (Req_bool b s = false) as ->.
  { destruct (Req_bool b s) eqn:Hb; [| reflexivity].
    apply Req_bool_true in Hb. exfalso. apply (Hno b); tauto. }
  rewrite filter_cons_True by (simpl; tauto). simpl. f_equal.
  apply IH; [lia |]. intros t Ht. apply Hno. tauto.
Qed.


End L1MoreFacts.

(** ** Properties *)

(** X11.  Every entry of the latent code [encode] returns is
    non-negative. *)
Theorem encode_latent_nonnegative (m : L1.L1AutoEncoder) (x : L1.rtensor)
    (enc : L1.L1EncoderOutput) :
  (L1.encode x m).1 = Ok enc →
  ∀ v, In v (L1.flatten (L1.latent enc)) → (0 <= v)%R.
Proof.
  rewrite encode_result. destruct (_ =? _); [| discriminate].
  intros [= <-] v. unfold L1.flatten. simpl. intros Hv.
  apply in_concat in Hv as (row & Hrow & Hv).
  apply in_concat in Hrow as (ex & Hex & Hrow).
  apply in_map_iff in Hex as (ex0 & <- & _).
  apply in_map_iff in Hrow as (v0 & <- & _).
  unfold L1.encode_vec in Hv. apply in_map_iff in Hv as (y & <- & _).
  unfold L1.relu. apply Rmax_r.
Qed.

Lemma encode_latent_nonnegative_witness :
  List.Forall (fun v => (0 <= v)%R)
    (L1.flatten
       (mkTensor 1 1 2
          (map (map (L1.encode_vec (L1.encode Sample.input Sample.sae).2))
               (cells Sample.input)))).
Proof.
  apply List.Forall_forall.
  apply (encode_latent_nonnegative Sample.sae Sample.input
           (L1.mkEncoded
              (mkTensor 1 1 2
                 (map (map (L1.encode_vec (L1.encode Sample.input Sample.sae).2))
                      (cells Sample.input))))).
  reflexivity.
Defined.

(** X12.  On a well-shaped input of width [activation_size], [encode]
    returns a well-shaped latent code of shape
    [bsz, seq_len, n_dict_components], and decoding that code returns a
    well-shaped tensor of the shape of the input. *)
Theorem decode_encode_keeps_shape (m : L1.L1AutoEncoder) (x : L1.rtensor) :
  L1.well_formed m →
  well_shaped x →
  width x = L1.activation_size m →
  ∃ c x_hat,
    (L1.encode x m).1 = Ok (L1.mkEncoded c)
    ∧ L1.decode c (L1.encode x m).2 = Ok x_hat
    ∧ well_shaped c
    ∧ bsz c = bsz x ∧ seq_len c = seq_len x ∧ width c = L1.n_dict_components m
    ∧ well_shaped x_hat
    ∧ bsz x_hat = bsz x ∧ seq_len x_hat = seq_len x ∧ width x_hat = width x.
Proof.
  intros (Hlen & Hrows & Hbias) [Hb Hex] Hw.
  rewrite encode_result, encode_state, Hw, Nat.eqb_refl.
  eexists _, _. split; [reflexivity |].
  unfold L1.decode, L1.decoder. simpl. rewrite Nat.eqb_refl.
  split; [reflexivity |].
  split.
  { split; simpl; [by rewrite length_map |].
    apply Forall_map. eapply Forall_impl; [exact Hex |].
    intros ex [Hs _]. simpl. split; [by rewrite length_map |].
    apply Forall_map, Forall_forall. intros v _. unfold L1.encode_vec.
    rewrite length_map, length_zip_with. unfold L1.vec_matmul.
    rewrite length_map, length_seq. simpl. lia. }
  do 3 (split; [reflexivity |]).
  split.
  { split; simpl; [by rewrite !length_map |].
    apply Forall_map, Forall_map. eapply Forall_impl; [exact Hex |].
    intros ex [Hs _]. simpl. split; [by rewrite !length_map |].
    apply Forall_map, Forall_map, Forall_forall. intros v _.
    rewrite length_map. unfold L1.normalize_dim0. by rewrite length_map. }
  simpl. auto.
Qed.

Lemma decode_encode_keeps_shape_witness :
  ∃ c x_hat,
    (L1.encode Sample.input Sample.sae).1 = Ok (L1.mkEncoded c)
    ∧ L1.decode c (L1.encode Sample.input Sample.sae).2 = Ok x_hat
    ∧ width x_hat = 2.
Proof.
  destruct (decode_encode_keeps_shape Sample.sae Sample.input)
    as (c & x_hat & He & Hd & _ & _ & _ & _ & _ & _ & _ & Hw).
  - repeat split; repeat constructor.
  - repeat split; repeat constructor.
  - reflexivity.
  - exists c, x_hat. auto.
Defined.

(** X14.  An input whose width is not [activation_size] makes [encode]
    and [forward] raise a RuntimeError, but only after the decoder weight
    was renormalized: the failed call still changes the module. *)
Theorem wrong_width_raises_after_renormalizing
    (m : L1.L1AutoEncoder) (x : L1.rtensor) (return_mse : bool) :
  width x ≠ L1.activation_size m →
  (L1.encode x m).1 = Raise RuntimeError
  ∧ (L1.forward x return_mse m).1 = Raise RuntimeError
  ∧ L1.decoder_weight (L1.encode x m).2
    = L1.normalize_dim0 (L1.n_dict_components m) (L1.decoder_weight m)
  ∧ (L1.forward x return_mse m).2 = (L1.encode x m).2.
Proof.
  intros Hw. apply Nat.eqb_neq in Hw.
  rewrite encode_result, encode_state, Hw. unfold L1.forward, L1.encode. simpl.
  rewrite Hw. simpl. repeat split.
Qed.

Lemma wrong_width_raises_after_renormalizing_witness :
  (L1.forward Sample.unit_input false Sample.sae).1 = Raise RuntimeError.
Proof.
  destruct (wrong_width_raises_after_renormalizing Sample.sae Sample.unit_input false)
    as (_ & Hf & _); [simpl; lia | exact Hf].
Defined.

(** X15.  Whenever [forward] returns, its sparsity loss is not negative,
    and neither is its reconstruction loss when [recon_alpha] is not
    negative (a loss that is nan is left aside). *)
Theorem losses_are_nonnegative
    (m : L1.L1AutoEncoder) (x : L1.rtensor) (return_mse : bool)
    (out : L1.L1ForwardOutput) (extra : option (option R)) :
  (L1.forward x return_mse m).1 = Ok (out, extra) →
  (∀ l, L1.l1_loss out = Some l → (0 <= l)%R)
  ∧ ((0 <= L1.recon_alpha m)%R →
     ∀ s, L1.reconstruction_loss out = L1.Scalar (Some s) → (0 <= s)%R).
Proof.
  intros Hf. apply forward_inv in Hf as (c & x_hat & _ & _ & _ & -> & _). simpl.
  split.
  - intros l Hl. unfold L1.norm1_dim2_mean in Hl.
    revert Hl. apply mean_nonneg. apply Forall_forall. intros v Hv.
    apply list_elem_of_In, in_concat in Hv as (row & Hrow & Hv).
    apply in_map_iff in Hrow as (ex & <- & _).
    apply in_map_iff in Hv as (u & <- & _). apply norm1_nonneg.
  - intros Halpha s Hs. injection Hs as Hs.
    destruct (L1.mean _) as [mu |] eqn:Hmu; simpl in Hs; [| discriminate].
    injection Hs as <-. apply Rmult_le_pos; [exact Halpha |].
    apply (mean_nonneg _ _ (squares_nonneg _ _) Hmu).
Qed.

Lemma losses_are_nonnegative_witness :
  ∃ out extra,
    (L1.forward Sample.input false Sample.sae).1 = Ok (out, extra)
    ∧ ∀ l, L1.l1_loss out = Some l → (0 <= l)%R.
Proof.
  destruct (forward_ok Sample.input false Sample.sae eq_refl) as (out & extra & Hf).
  exists out, extra. split; [exact Hf |].
  exact (proj1 (losses_are_nonnegative Sample.sae Sample.input false out extra Hf)).
Defined.



(** X17.  On a well-shaped input of width [activation_size], [forward]
    with [return_mse] also returns the mean squared error over all
    positions; when no entry of the input is -1, the reconstruction loss
    is [recon_alpha] times that value. *)
Theorem forward_return_mse (m : L1.L1AutoEncoder) (x : L1.rtensor) :
  L1.well_formed m →
  well_shaped x →
  width x = L1.activation_size m →
  ∃ out mse,
    (L1.forward x true m).1 = Ok (out, Some mse)
    ∧ mse = L1.mean (zip_with (fun a b => ((a - b) * (a - b))%R)
                       (L1.flatten (L1.sae_out out)) (L1.flatten x))
    ∧ ((∀ t, In t (L1.flatten x) → t ≠ (-1)%R) →
       L1.reconstruction_loss out = L1.Scalar (Rmult (L1.recon_alpha m) <$> mse)).
Proof.
  intros (Hlen & Hrows & Hbias) Hx Hw.
  destruct (forward_ok x true m Hw) as (out & extra & Hf).
  destruct (forward_inv x true m out extra Hf)
    as (c & x_hat & Henc & Hdec & Hshape & -> & ->).
  eexists _, _. split; [exact Hf |]. simpl. split; [reflexivity |].
  intros Hno.
  assert (length (L1.flatten x_hat) = length (L1.flatten x)) as Hflat.
  { rewrite encode_result, Hw, Nat.eqb_refl in Henc. injection Henc as <-.
    rewrite encode_state in Hdec. unfold L1.decoder in Hdec. simpl in Hdec.
    rewrite Nat.eqb_refl in Hdec. injection Hdec as <-.
    unfold L1.flatten. simpl. apply same_dims_flatten_length.
    rewrite map_map. erewrite map_ext by (intros ex; apply map_map).
    apply (same_dims_map
             (fun v => map (L1.dot (L1.encode_vec
                        (L1.set_decoder_weight
                           (L1.normalize_dim0 (L1.n_dict_components m) (L1.decoder_weight m))
                           m) v))
                        (L1.normalize_dim0 (L1.n_dict_components m) (L1.decoder_weight m))));
      [exact Hx |].
    intros v. rewrite length_map. unfold L1.normalize_dim0. rewrite length_map. lia. }
  rewrite (select_unmasked_all (-1) (L1.flatten x_hat) (L1.flatten x) Hflat Hno).
  rewrite (select_unmasked_all (-1) (L1.flatten x) (L1.flatten x) eq_refl Hno).
  reflexivity.
Qed.

Lemma forward_return_mse_witness :
  ∃ out mse, (L1.forward Sample2.plain_input true Sample.sae).1 = Ok (out, Some mse)
             ∧ L1.reconstruction_loss out
               = L1.Scalar (Rmult (L1.recon_alpha Sample.sae) <$> mse).
Proof.
  destruct (forward_return_mse Sample.sae Sample2.plain_input)
    as (out & mse & Hf & _ & Hrec).
  - repeat split; repeat constructor.
  - repeat split; repeat constructor.
  - reflexivity.
  - exists out, mse. split; [exact Hf |]. apply Hrec.
    intros t [<- | [<- | []]]; lra.
Defined.

(* ===================================================================== *)
(** * Further theorems: the precomputed store, its loader, the server     *)
(* ===================================================================== *)

Section StoreMoreFacts.
Import Activations.
Context {B : Type}.

Lemma getitem_out_of_range {X : Type} (l : list X) (i : Z) :
  (i < - Z.of_nat (length l) ∨ Z.of_nat (length l) <= i)%Z →
  getitem l i = Raise IndexError.
Proof.
  intros Hi. unfold getitem.
  destruct (i <? 0)%Z eqn:Hneg.
  - assert ((0 <=? i + Z.of_nat (length l))%Z = false) as -> by lia. reflexivity.
  - assert ((i <? Z.of_nat (length l))%Z = false) as -> by lia.
    by rewrite andb_false_r.
Qed.

Lemma getitem_negative {X : Type} (l : list X) (i : Z) :
  (- Z.of_nat (length l) <= i < 0)%Z →
  getitem l i = getitem l (i + Z.of_nat (length l)).
Proof.
  intros Hi. unfold getitem.
  assert ((i <? 0)%Z = true) as -> by lia.
  assert ((i + Z.of_nat (length l) <? 0)%Z = false) as -> by lia.
  reflexivity.
Qed.

Lemma product_nonneg (dims : list Z) :
  Forall (fun d => (0 <= d)%Z) dims → (0 <= product dims)%Z.
Proof. induction 1 as [| d dims Hd _ IH]; simpl; lia. Qed.

Lemma filter_negative_nil (dims : list Z) :
  filter (fun d => (d < 0)%Z) dims = [] → Forall (fun d => (0 <= d)%Z) dims.
Proof.
  induction dims as [| d dims IH]; [constructor |].
  rewrite filter_cons. destruct (decide (d < 0)%Z); [discriminate |].
  intros H. constructor; [lia | by apply IH].
Qed.

Lemma filter_nonneg_all (dims : list Z) :
  Forall (fun d => (0 <= d)%Z) dims → filter (fun d => (0 <= d)%Z) dims = dims.
Proof. apply filter_keeps_all. Qed.

(** The shape numpy infers when one dimension is left open. *)
Lemma inferred_shape (dims : list Z) (d q : Z) :
  filter (fun d => (d < 0)%Z) dims = [d] →
  (0 <= q)%Z →
  product (map (fun d => if (d <? 0)%Z then q else d) dims)
  = (product (filter (fun d => (0 <= d)%Z) dims) * q)%Z
  ∧ Forall (fun d => (0 <= d)%Z) (map (fun d => if (d <? 0)%Z then q else d) dims).
Proof.
  intros Hone Hq. induction dims as [| x dims IH]; [discriminate |].
  rewrite filter_cons in Hone. rewrite (filter_cons (fun d => (0 <= d)%Z)). simpl.
  destruct (decide (x < 0)%Z) as [Hx | Hx].
  - injection Hone as _ Hrest. apply filter_negative_nil in Hrest.
    destruct (decide (0 <= x)%Z); [lia |].
    assert ((x <? 0)%Z = true) as -> by lia.
    assert (map (fun d => if (d <? 0)%Z then q else d) dims = dims) as ->.
    { rewrite <- (map_id dims) at 2. apply map_ext_Forall.
      eapply Forall_impl; [exact Hrest |]. intros y Hy. simpl in *.
      by assert ((y <? 0)%Z = false) as -> by lia. }
    rewrite filter_nonneg_all by done. split; [lia | by constructor].
  - destruct (IH Hone) as [Hprod Hpos].
    destruct (decide (0 <= x)%Z); [| lia].
    assert ((x <? 0)%Z = false) as -> by lia.
    simpl. rewrite Hprod. split; [lia | constructor; [lia | exact Hpos]].
Qed.

Lemma get_lookup (ds : MemoryMappedActivationsDataset B) (i : nat)
      (filename : string) (dims : list Z) (row : list B) :
  filenames (ds_metadata ds) !! i = Some filename →
  tensor_shapes (ds_metadata ds) !! i = Some dims →
  mmap ds !! i = Some row →
  get ds (Z.of_nat i)
  = (tensor ← reshape row dims ; Ok (tensor, filename)).
Proof.
  intros Hf Hd Hr. unfold get.
  rewrite (getitem_lookup _ _ _ Hf). simpl.
  rewrite (getitem_lookup _ _ _ Hd). simpl.
  by rewrite (getitem_lookup _ _ _ Hr).
Qed.

End StoreMoreFacts.

(** ** Properties *)

(** X18.  Whenever [reshape] succeeds, the entries are the row's, in the
    same order; the resulting shape keeps every non-negative dimension
    that was asked for, has no negative dimension, and asks for exactly as
    many entries as the row holds, also when one dimension was given as a
    negative number and inferred. *)
Theorem reshape_keeps_entries {B : Type} (row : list B) (dims : list Z)
    (a : Activations.ndarray B) :
  Activations.reshape row dims = Ok a →
  Activations.data a = row
  ∧ Activations.product (Activations.shape a) = Z.of_nat (length row)
  ∧ Forall (fun d => (0 <= d)%Z) (Activations.shape a)
  ∧ Forall2 (fun d s => (0 <= d)%Z → s = d) dims (Activations.shape a).
Proof.
  unfold Activations.reshape.
  destruct (filter (fun d => (d < 0)%Z) dims) as [| d [| d' rest]] eqn:Hneg;
    [| | discriminate].
  - destruct (_ =? _)%Z eqn:Hprod; [| discriminate]. intros [= <-]. simpl.
    apply Z.eqb_eq in Hprod. apply filter_negative_nil in Hneg.
    repeat split; try assumption.
    clear. induction dims; constructor; auto.
  - set (known := Activations.product (filter (fun d => (0 <= d)%Z) dims)).
    destruct (negb (known =? 0)%Z
              && (Z.of_nat (length row) `mod` known =? 0)%Z) eqn:Hok; [| discriminate].
    intros [= <-]. simpl.
    apply andb_prop in Hok as [Hknown Hmod].
    apply Z.eqb_eq in Hmod. apply negb_true_iff, Z.eqb_neq in Hknown.
    assert (0 <= known)%Z as Hpos.
    { unfold known. apply product_nonneg.
      apply Forall_forall. intros y Hy. by apply list_elem_of_filter in Hy as [Hy _]. }
    assert (0 <= Z.of_nat (length row) / known)%Z as Hq by (apply Z.div_pos; lia).
    destruct (inferred_shape dims d _ Hneg Hq) as [Hprod Hall].
    split; [reflexivity |]. split; [| split; [exact Hall |]].
    + rewrite Hprod. fold known.
      symmetry. apply Z_div_exact_full_2; [lia | exact Hmod].
    + generalize (Z.of_nat (length row) / known)%Z. clear. intros q.
      induction dims as [| d dims IH]; simpl; [constructor |].
      constructor; [| exact IH].
      intros Hd. destruct (d <? 0)%Z eqn:Hlt; [lia | reflexivity].
Qed.

Lemma reshape_keeps_entries_witness :
  Activations.reshape [1; 2; 3; 4; 5; 6]%Z [-2; 3]%Z
  = Ok (Activations.mkArray [2; 3]%Z [1; 2; 3; 4; 5; 6]%Z)
  ∧ Activations.product [2; 3]%Z = 6%Z.
Proof.
  split; [reflexivity |].
  destruct (reshape_keeps_entries [1; 2; 3; 4; 5; 6]%Z [-2; 3]%Z
              (Activations.mkArray [2; 3]%Z [1; 2; 3; 4; 5; 6]%Z))
    as (_ & Hprod & _); [reflexivity | exact Hprod].
Defined.

(** X19.  Reading an index at or beyond the number of files, or below
    minus that number, raises IndexError. *)
Theorem get_out_of_range {B : Type} (ds : Activations.MemoryMappedActivationsDataset B)
    (idx : Z) :
  (idx < - Z.of_nat (Activations.len ds) ∨ Z.of_nat (Activations.len ds) <= idx)%Z →
  Activations.get ds idx = Raise IndexError.
Proof.
  intros Hidx. unfold Activations.get.
  rewrite (getitem_out_of_range (Activations.filenames (Activations.ds_metadata ds)));
    [reflexivity | exact Hidx].
Qed.

Lemma get_out_of_range_witness :
  Activations.get Sample.store 3 = Raise IndexError.
Proof.
  apply (get_out_of_range Sample.store 3). right. vm_compute. discriminate.
Defined.

(** X20.  In a store with one shape and one row per file, a negative
    index counts from the end: reading [idx] between minus the number of
    files and -1 is reading [idx] plus the number of files. *)
Theorem get_negative_index {B : Type} (ds : Activations.MemoryMappedActivationsDataset B)
    (idx : Z) :
  length (Activations.tensor_shapes (Activations.ds_metadata ds)) = Activations.len ds →
  length (Activations.mmap ds) = Activations.len ds →
  (- Z.of_nat (Activations.len ds) <= idx < 0)%Z →
  Activations.get ds idx = Activations.get ds (idx + Z.of_nat (Activations.len ds)).
Proof.
  intros Hshapes Hrows Hidx. unfold Activations.get, Activations.len in *.
  rewrite (getitem_negative (Activations.filenames _)) by lia.
  rewrite (getitem_negative (Activations.tensor_shapes _)) by lia.
  rewrite (getitem_negative (Activations.mmap _)) by lia.
  by rewrite Hshapes, Hrows.
Qed.

Lemma get_negative_index_witness :
  Activations.get Sample.store (-1) = Activations.get Sample.store 2.
Proof.
  apply (get_negative_index Sample.store (-1)); [reflexivity | reflexivity |].
  vm_compute. split; [discriminate | reflexivity].
Defined.

(** X21.  Reading a valid index whose row does not hold as many entries
    as its recorded shape asks for raises ValueError: no tensor of a wrong
    shape is ever returned. *)
Theorem get_shape_mismatch {B : Type} (ds : Activations.MemoryMappedActivationsDataset B)
    (i : nat) (filename : string) (dims : list Z) (row : list B) :
  Activations.filenames (Activations.ds_metadata ds) !! i = Some filename →
  Activations.tensor_shapes (Activations.ds_metadata ds) !! i = Some dims →
  Activations.mmap ds !! i = Some row →
  Forall (fun d => (0 <= d)%Z) dims →
  Activations.product dims ≠ Z.of_nat (length row) →
  Activations.get ds (Z.of_nat i) = Raise ValueError.
Proof.
  intros Hf Hd Hr Hpos Hne. rewrite (get_lookup ds i filename dims row) by done.
  unfold Activations.reshape.
  rewrite (filter_drops_all (fun d => (d < 0)%Z) dims)
    by (eapply Forall_impl; [exact Hpos |]; simpl; lia).
  apply Z.eqb_neq in Hne. by rewrite Hne.
Qed.

Lemma get_shape_mismatch_witness :
  Activations.get (Activations.mkDataset Sample.manifest [[1; 2; 3]%Z] [3; 4]%Z) 0
  = Raise ValueError.
Proof.
  apply (get_shape_mismatch
           (Activations.mkDataset Sample.manifest [[1; 2; 3]%Z] [3; 4]%Z)
           0 "a.flac" [3; 4]%Z [1; 2; 3]%Z);
    try reflexivity.
  - repeat constructor; lia.
  - vm_compute. discriminate.
Defined.

(** X22.  A negative [subset_size] follows Python's slices: on a store
    that keeps its invariant it drops that many entries from the end of
    the file identifiers, the shapes and the blob alike; when nothing is
    left, construction raises IndexError. *)
Theorem init_negative_subset {B : Type} (on_disk : Activations.metadata)
    (blob : list (list B)) (subset_size : Z) :
  Activations.store_invariant on_disk blob →
  (subset_size < 0)%Z →
  (Z.of_nat (length (Activations.filenames on_disk)) + subset_size <= 0 →
   Activations.init on_disk blob (Some subset_size) = Raise IndexError)%Z
  ∧ (0 < Z.of_nat (length (Activations.filenames on_disk)) + subset_size →
     ∃ ds,
       Activations.init on_disk blob (Some subset_size) = Ok ds
       ∧ Z.of_nat (Activations.len ds)
         = Z.of_nat (length (Activations.filenames on_disk)) + subset_size
       ∧ Activations.filenames (Activations.ds_metadata ds)
         = take (Activations.len ds) (Activations.filenames on_disk)
       ∧ Activations.tensor_shapes (Activations.ds_metadata ds)
         = take (Activations.len ds) (Activations.tensor_shapes on_disk)
       ∧ Activations.mmap ds = take (Activations.len ds) blob)%Z.
Proof.
  intros [Hlen Hrows] Hneg.
  pose proof (Forall2_length _ _ _ Hrows) as Hblob.
  unfold Activations.init, slice_to.
  assert ((subset_size <? 0)%Z = true) as -> by lia.
  rewrite <- Hblob, Hlen. cbv beta iota zeta.
  set (k := Z.to_nat (Z.max 0 (Z.of_nat (length (Activations.filenames on_disk))
                               + subset_size))).
  change (Activations.tensor_shapes
            (Activations.mkMetadata (take k (Activations.filenames on_disk))
                                    (take k (Activations.tensor_shapes on_disk))))
    with (take k (Activations.tensor_shapes on_disk)).
  split; intros Hk.
  - assert (k = 0) as -> by lia. reflexivity.
  - destruct (lookup_lt_is_Some_2 (take k (Activations.tensor_shapes on_disk)) 0)
      as [first Hfirst]; [rewrite length_take; lia |].
    pose proof (getitem_lookup _ 0 _ Hfirst) as Hprobe.
    change (Z.of_nat 0) with 0%Z in Hprobe. rewrite Hprobe. simpl.
    eexists. split; [reflexivity |]. unfold Activations.len. simpl.
    rewrite length_take.
    assert (k `min` length (Activations.filenames on_disk) = k) as -> by lia.
    repeat split. lia.
Qed.

Lemma init_negative_subset_witness :
  ∃ ds, Activations.init Sample.manifest Sample.blob (Some (-1)%Z) = Ok ds
        ∧ Activations.filenames (Activations.ds_metadata ds) = ["a.flac"; "b.flac"].
Proof.
  destruct (init_negative_subset Sample.manifest Sample.blob (-1)) as [_ Hsome].
  - split; [reflexivity |]. repeat constructor; vm_compute; congruence.
  - lia.
  - destruct Hsome as (ds & Hinit & Hlen & Hnames & _); [vm_compute; reflexivity |].
    exists ds. split; [exact Hinit |]. rewrite Hnames.
    assert (Activations.len ds = 2) as -> by (apply Nat2Z.inj; rewrite Hlen; reflexivity).
    reflexivity.
Defined.

(** X23.  A [subset_size] that is at least the number of files changes
    nothing: on a store that keeps its invariant, construction gives what
    it gives without a [subset_size], namely the manifest and the blob as
    they are with the first shape as activation shape, or IndexError when
    the store has no entry. *)
Theorem init_large_subset {B : Type} (on_disk : Activations.metadata)
    (blob : list (list B)) (subset_size : Z) :
  Activations.store_invariant on_disk blob →
  (Z.of_nat (length (Activations.filenames on_disk)) <= subset_size)%Z →
  Activations.init on_disk blob (Some subset_size) = Activations.init on_disk blob None
  ∧ Activations.init on_disk blob None
    = match Activations.tensor_shapes on_disk with
      | [] => Raise IndexError
      | first :: _ => Ok (Activations.mkDataset on_disk blob first)
      end.
Proof.
  intros [Hlen Hrows] Hbig.
  pose proof (Forall2_length _ _ _ Hrows) as Hblob.
  split.
  - unfold Activations.init. rewrite !slice_to_take by lia.
    rewrite !take_ge by lia. by destruct on_disk.
  - unfold Activations.init. cbv beta iota zeta.
    by destruct (Activations.tensor_shapes on_disk).
Qed.

Lemma init_large_subset_witness :
  Activations.init Sample.manifest Sample.blob (Some 7%Z)
  = Activations.init Sample.manifest Sample.blob None.
Proof.
  apply (init_large_subset Sample.manifest Sample.blob 7).
  - split; [reflexivity |]. repeat constructor; vm_compute; congruence.
  - vm_compute. discriminate.
Defined.

Section LoaderFacts.
Import Activations Loaders.
Context {B : Type}.

Lemma seq_nth_take_drop {X : Type} (d : X) (l : list X) (start size : nat) :
  start + size ≤ length l →
  map (fun i => nth i l d) (seq start size) = take size (drop start l).
Proof.
  revert start. induction size as [| size IH]; intros start Hlen; simpl.
  - by rewrite take_0.
  - destruct (lookup_lt_is_Some_2 l start) as [x Hx]; [lia |].
    rewrite (drop_S _ _ _ Hx). simpl. f_equal.
    + by apply nth_lookup_Some.
    + apply IH. lia.
Qed.

Lemma stack_uniform (dims : list Z) (ts : list (ndarray B)) :
  ts ≠ [] →
  Forall (fun t => shape t = dims) ts →
  stack ts = Ok (mkArray (Z.of_nat (length ts) :: dims) (concat (map data ts))).
Proof.
  destruct ts as [| t rest]; [done |]. intros _ Hall.
  apply Forall_cons in Hall as [Ht Hrest]. unfold stack.
  assert (forallb (fun u => bool_decide (shape u = shape t)) rest = true) as ->.
  { apply forallb_forall. intros u Hu. apply bool_decide_eq_true.
    rewrite Forall_forall in Hrest. rewrite Ht. apply Hrest. by apply list_elem_of_In. }
  by rewrite Ht.
Qed.

Lemma fetch_uniform (ds : MemoryMappedActivationsDataset B) (dims : list Z)
      (indices : list nat) :
  store_invariant (ds_metadata ds) (mmap ds) →
  Forall (fun d => d = dims) (tensor_shapes (ds_metadata ds)) →
  Forall (fun i => i < len ds) indices →
  fetch ds indices
  = Ok (map (fun i => (mkArray dims (nth i (mmap ds) []),
                       nth i (filenames (ds_metadata ds)) ""))
            indices).
Proof.
  intros [Hlen Hrows] Hsame. unfold len.
  induction 1 as [| i indices Hi _ IH]; simpl; [reflexivity |].
  destruct (lookup_lt_is_Some_2 (filenames (ds_metadata ds)) i) as [f Hf]; [lia |].
  destruct (lookup_lt_is_Some_2 (tensor_shapes (ds_metadata ds)) i) as [d Hd]; [lia |].
  destruct (Forall2_lookup_l _ _ _ _ _ Hrows Hd) as (row & Hr & Hpos & Hprod).
  assert (d = dims) as ->.
  { rewrite Forall_forall in Hsame. apply Hsame. by eapply list_elem_of_lookup_2. }
  rewrite (get_lookup ds i f dims row Hf Hd Hr), reshape_fits by done. simpl.
  rewrite IH. simpl.
  by rewrite (nth_lookup_Some _ _ _ _ Hr), (nth_lookup_Some _ _ _ _ Hf).
Qed.

Lemma iterate_all_ok (l : MemoryMappedActivationDataLoader B)
      (g : nat → ndarray B * list string) (ks : list nat) :
  (∀ k, In k ks → batch l k = Ok (g k)) →
  iterate l ks = (map g ks, None).
Proof.
  induction ks as [| k ks IH]; intros Hall; simpl; [reflexivity |].
  rewrite (Hall k) by (simpl; tauto).
  rewrite IH by (intros j Hj; apply Hall; simpl; tauto). reflexivity.
Qed.

Lemma init_activation_shape (on_disk : metadata) (blob : list (list B))
      (subset_size : option Z) (ds : MemoryMappedActivationsDataset B) :
  init on_disk blob subset_size = Ok ds →
  ∃ rest, tensor_shapes (ds_metadata ds) = activation_shape ds :: rest.
Proof.
  unfold init. destruct subset_size as [n |]; cbv beta iota zeta.
  - change (tensor_shapes (mkMetadata (slice_to (filenames on_disk) n)
                                      (slice_to (tensor_shapes on_disk) n)))
      with (slice_to (tensor_shapes on_disk) n).
    destruct (slice_to (tensor_shapes on_disk) n) as [| first rest] eqn:Hs;
      [discriminate |].
    intros [= <-]. simpl. rewrite ?Hs. by exists rest.
  - destruct (tensor_shapes on_disk) as [| first rest] eqn:Hs; [discriminate |].
    intros [= <-]. simpl. rewrite ?Hs. by exists rest.
Qed.

Lemma loader_init_inv (on_disk : metadata) (blob : list (list B))
      (size workers : Z) (subset_size : option Z) (l : MemoryMappedActivationDataLoader B) :
  loader_init on_disk blob size workers subset_size = Ok l →
  init on_disk blob subset_size = Ok (dataset l)
  ∧ batch_size l = size ∧ (0 < size)%Z
  ∧ loader_activation_shape l = activation_shape (dataset l)
  ∧ dataset_length l = len (dataset l).
Proof.
  unfold loader_init.
  destruct (init on_disk blob subset_size) as [ds | e0]; simpl; [| discriminate].
  destruct (workers <? 0)%Z eqn:Hw; [discriminate |].
  destruct (size <=? 0)%Z eqn:Hb; [discriminate |].
  intros [= <-]. simpl. repeat split. lia.
Qed.

End LoaderFacts.

(** X24.  Whenever [init_sae_from_checkpoint] returns, the checkpoint
    held all five keys, the module is in eval mode and holds the
    checkpoint's state dictionary, which fits its architecture, and its
    class is the L1 autoencoder exactly when the header's variant is "l1",
    with the header's activation size.  A checkpoint that lacks a key
    raises a KeyError naming it: "hparams", "activation_size",
    "autoencoder_variant" and "autoencoder_config" are read, in this
    order, before anything is built, "model" only after the constructor
    has returned.  What the constructor raises is passed on. *)
Theorem init_sae_outcomes
    {cfg_dict state_dict L1Config TopKConfig : Type}
    (l1_from_dict : cfg_dict → result L1Config)
    (topk_from_dict : cfg_dict → result TopKConfig)
    (constructor_raises : Activations.architecture L1Config TopKConfig → option exn)
    (state_fits : Activations.architecture L1Config TopKConfig → state_dict → bool)
    (ckpt : Activations.checkpoint cfg_dict state_dict) :
  let run := Activations.init_sae_from_checkpoint
               l1_from_dict topk_from_dict constructor_raises state_fits ckpt in
  let built hp :=
    size ← Activations.activation_size hp ;
    variant ← Activations.autoencoder_variant hp ;
    d ← Activations.autoencoder_config hp ;
    if String.eqb variant "l1"
    then match l1_from_dict d with
         | Ok cfg => Some (Activations.L1AutoEncoder size cfg)
         | Raise _ => None
         end
    else match topk_from_dict d with
         | Ok cfg => Some (Activations.TopKAutoEncoder size cfg)
         | Raise _ => None
         end in
  (∀ m, run = Ok m →
     Activations.training m = false
     ∧ ∃ hp st,
         Activations.ckpt_hparams ckpt = Some hp
         ∧ Activations.ckpt_model ckpt = Some st
         ∧ built hp = Some (Activations.arch m)
         ∧ constructor_raises (Activations.arch m) = None
         ∧ Activations.loaded m = Some st
         ∧ state_fits (Activations.arch m) st = true)
  ∧ (Activations.ckpt_hparams ckpt = None → run = Raise (KeyError "hparams"))
  ∧ (∀ hp, Activations.ckpt_hparams ckpt = Some hp →
       (Activations.activation_size hp = None → run = Raise (KeyError "activation_size"))
       ∧ (Activations.activation_size hp ≠ None →
          Activations.autoencoder_variant hp = None →
          run = Raise (KeyError "autoencoder_variant"))
       ∧ (Activations.activation_size hp ≠ None →
          Activations.autoencoder_variant hp ≠ None →
          Activations.autoencoder_config hp = None →
          run = Raise (KeyError "autoencoder_config"))
       ∧ (∀ a, built hp = Some a →
            match constructor_raises a with
            | Some e => run = Raise e
            | None => Activations.ckpt_model ckpt = None → run = Raise (KeyError "model")
            end)).
Proof.
  intros run built. subst run built.
  unfold Activations.init_sae_from_checkpoint, Activations.construct,
    Activations.load_state_dict.
  destruct ckpt as [[[size_opt var_opt cfg_opt] |] st_opt]; simpl;
    [| split; [discriminate | split; [reflexivity | intros hp; discriminate]]].
  split; [| split; [discriminate |]].
  - intros m.
    destruct size_opt as [size |]; simpl; [| discriminate].
    destruct var_opt as [variant |]; simpl; [| discriminate].
    destruct (String.eqb variant "l1") eqn:Hvar; simpl;
      (destruct cfg_opt as [d |]; simpl; [| discriminate]).
    + destruct (l1_from_dict d) as [cfg | e0] eqn:Hcfg; simpl; [| discriminate].
      destruct (constructor_raises _) eqn:Hnew; simpl; [discriminate |].
      destruct st_opt as [st |]; simpl; [| discriminate].
      destruct (state_fits _ _) eqn:Hfits; simpl; [| discriminate].
      intros [= <-]. simpl. split; [reflexivity |].
      eexists _, _. split; [reflexivity |]. split; [reflexivity |].
      simpl. rewrite Hvar, Hcfg. repeat split; assumption.
    + destruct (topk_from_dict d) as [cfg | e0] eqn:Hcfg; simpl; [| discriminate].
      destruct (constructor_raises _) eqn:Hnew; simpl; [discriminate |].
      destruct st_opt as [st |]; simpl; [| discriminate].
      destruct (state_fits _ _) eqn:Hfits; simpl; [| discriminate].
      intros [= <-]. simpl. split; [reflexivity |].
      eexists _, _. split; [reflexivity |]. split; [reflexivity |].
      simpl. rewrite Hvar, Hcfg. repeat split; assumption.
  - intros hp [= <-]. simpl.
    split; [intros ->; reflexivity |].
    split; [intros Hsize ->; destruct size_opt; [reflexivity | congruence] |].
    split.
    + intros Hsize Hvar ->. destruct size_opt, var_opt; try congruence. simpl.
      by destruct (String.eqb _ _).
    + intros a.
      destruct size_opt as [size |]; simpl; [| discriminate].
      destruct var_opt as [variant |]; simpl; [| discriminate].
      destruct cfg_opt as [d |]; simpl; [| discriminate].
      destruct (String.eqb variant "l1"); simpl.
      * destruct (l1_from_dict d) as [cfg | e0]; simpl; [| discriminate].
        intros [= <-]. destruct (constructor_raises _); simpl; [reflexivity |].
        by intros ->.
      * destruct (topk_from_dict d) as [cfg | e0]; simpl; [| discriminate].
        intros [= <-]. destruct (constructor_raises _); simpl; [reflexivity |].
        by intros ->.
Qed.

Lemma init_sae_outcomes_witness :
  Activations.init_sae_from_checkpoint
    Sample.from_dict Sample.from_dict Sample.constructor_raises Sample.fits
    Sample.weightless_checkpoint = Raise (KeyError "model").
Proof.
  destruct (init_sae_outcomes
              Sample.from_dict Sample.from_dict Sample.constructor_raises Sample.fits
              Sample.weightless_checkpoint) as (_ & _ & Hkeys).
  destruct (Hkeys (Activations.mkHparams (Some 4%Z) (Some "l1")
                     (Some [("expansion_factor", 2%Z)])) eq_refl)
    as (_ & _ & _ & Hbuilt).
  exact (Hbuilt (Activations.L1AutoEncoder 4%Z [("expansion_factor", 2%Z)])
           eq_refl eq_refl).
Defined.

(** X25.  A loader that the constructor returned, over a store that
    keeps its invariant and whose entries all have one shape, yields,
    without raising, exactly [__len__] batches; batch [k] holds the rows
    and the file identifiers of the entries [k * batch_size] up to
    [(k + 1) * batch_size], in order, stacked under the shape
    [batch_size :: shape]; fewer than [batch_size] trailing entries are
    left out, and the recorded length and activation shape are the
    dataset's. *)
Theorem loader_yields_full_batches
    {B : Type} (on_disk : Activations.metadata) (blob : list (list B))
    (size workers : Z) (subset_size : option Z)
    (l : Loaders.MemoryMappedActivationDataLoader B) (dims : list Z) :
  Loaders.loader_init on_disk blob size workers subset_size = Ok l →
  Activations.store_invariant (Activations.ds_metadata (Loaders.dataset l))
                              (Activations.mmap (Loaders.dataset l)) →
  Forall (fun d => d = dims)
         (Activations.tensor_shapes (Activations.ds_metadata (Loaders.dataset l))) →
  Loaders.iter l
  = (map (Loaders.full_batch (Loaders.dataset l) (Z.to_nat size) dims)
         (seq 0 (Z.to_nat (Loaders.loader_len l))),
     None)
  ∧ (0 <= Z.of_nat (Activations.len (Loaders.dataset l)) - Loaders.loader_len l * size
     < size)%Z
  ∧ Loaders.dataset_length l = Activations.len (Loaders.dataset l)
  ∧ Loaders.loader_activation_shape l = dims.
Proof.
  intros Hinit Hinv Hsame.
  destruct (loader_init_inv _ _ _ _ _ _ Hinit) as (Hds & Hsize & Hbs & Hshape & Hlength).
  assert (Loaders.loader_activation_shape l = dims) as Hdims.
  { rewrite Hshape. destruct (init_activation_shape _ _ _ _ Hds) as [rest Hfirst].
    rewrite Hfirst in Hsame. by apply Forall_cons in Hsame as [-> _]. }
  split; [| split; [| split; [exact Hlength | exact Hdims]]].
  2: { unfold Loaders.loader_len. rewrite Hsize.
       pose proof (Z.mod_pos_bound (Z.of_nat (Activations.len (Loaders.dataset l))) size Hbs).
       pose proof (Z.div_mod (Z.of_nat (Activations.len (Loaders.dataset l))) size).
       lia. }
  unfold Loaders.iter, Loaders.loader_len. rewrite Hsize.
  set (n := Activations.len (Loaders.dataset l)).
  set (k0 := Z.to_nat size).
  pose proof (Z.mul_div_le (Z.of_nat n) size Hbs) as Hle.
  pose proof (Z.div_pos (Z.of_nat n) size) as Hdiv.
  apply iterate_all_ok. intros k Hk. apply in_seq in Hk.
  assert (k * k0 + k0 ≤ n) as Hfit by (unfold k0; nia).
  destruct Hinv as [Hlen Hrows].
  pose proof (Forall2_length _ _ _ Hrows) as Hblob.
  unfold Loaders.batch. rewrite Hsize. fold k0.
  rewrite (fetch_uniform (Loaders.dataset l) dims) by
    (try done; apply Forall_forall; intros i Hi;
     apply list_elem_of_In, in_seq in Hi; fold n; lia).
  simpl. rewrite !map_map. simpl.
  rewrite (stack_uniform dims).
  - simpl. unfold Loaders.full_batch. rewrite !map_map. simpl.
    rewrite length_map, length_seq.
    rewrite (seq_nth_take_drop [] (Activations.mmap (Loaders.dataset l)))
      by (unfold n, Activations.len in Hfit; lia).
    rewrite (seq_nth_take_drop "" (Activations.filenames _))
      by (unfold n, Activations.len in Hfit; lia).
    reflexivity.
  - assert (k0 ≠ 0) as Hk0 by (unfold k0; lia).
    destruct k0; [done |]. simpl. discriminate.
  - apply Forall_map, Forall_forall. intros i _. reflexivity.
Qed.

Lemma loader_yields_full_batches_witness :
  ∃ l,
    Loaders.loader_init Sample2.uniform_manifest Sample.blob 2 0 None = Ok l
    ∧ Loaders.iter l
      = ([(Activations.mkArray [2; 3; 4]%Z
             [1; 2; 3; 4; 5; 6; 7; 8; 9; 10; 11; 12;
              21; 22; 23; 24; 25; 26; 27; 28; 29; 30; 31; 32]%Z,
           ["a.flac"; "b.flac"])], None).
Proof.
  exists Sample2.loader. split; [reflexivity |].
  destruct (loader_yields_full_batches Sample2.uniform_manifest Sample.blob 2 0 None
              Sample2.loader [3; 4]%Z) as [Hiter _].
  - reflexivity.
  - split; [reflexivity |]. repeat constructor; vm_compute; congruence.
  - repeat constructor.
  - etransitivity; [exact Hiter | vm_compute; reflexivity].
Defined.


(** ** The ASCII natural sort only reorders *)

Lemma insert_sorted_perm (x : string) (l : list string) :
  Lib.insert_sorted x l ≡ₚ x :: l.
Proof.
  induction l as [| y l IH]; simpl; [reflexivity |].
  destruct (Lib.key_le _ _); [reflexivity |].
  rewrite IH. apply Permutation_swap.
Qed.

Lemma lib_natsorted_perm (l : list string) : Lib.natsorted l ≡ₚ l.
Proof.
  unfold Lib.natsorted. induction l as [| x l IH]; simpl; [reflexivity |].
  by rewrite insert_sorted_perm, IH.
Qed.

Lemma init_capture_set_witness :
  ∃ r : recorder Z,
    init Lib.literal_match Lib.natsorted WhisperCaching (Some Sample.whisper) None
         ["encoder"; "decoder"] = Ok r
    ∧ ∀ name, In name (activations_to_cache r)
              ↔ In name (named_modules Sample.whisper)
                ∧ ∃ p, In p ["encoder"; "decoder"] ∧ Lib.literal_match p name = Ok true.
Proof.
  destruct (init_capture_set Lib.literal_match Lib.natsorted WhisperCaching
              Sample.whisper None ["encoder"; "decoder"])
    as (r & Hinit & _ & _ & _ & _ & Hset).
  - exact lib_natsorted_perm.
  - intros name p _ _. eexists. reflexivity.
  - exists r. split; [exact Hinit | exact Hset].
Defined.
